(** * MetaMCP tool discovery: a shallow embedding and its properties

    The development follows the TypeScript sources of the tool-discovery
    subsystem: the defer-loading middleware ([defer-loading.ts]), the
    tool-search service and its REGEX and BM25 providers, the built-in
    [metamcp_execute_tool] dispatcher and the zod schemas of the
    tool-search config API.

    Conventions of the embedding.
    - A JavaScript string is a [string]: a sequence of code units below 256
      (the Latin-1 range).  Case mapping, whitespace and the regular
      expression class [\W] are written out for that range.
    - A JavaScript number is an IEEE 754 double.  The numbers that occur
      are finite and are carried as the rationals they denote ([Q]); the
      arithmetic on them rounds as the format does ([Double]).  Counts and
      indices are [nat]; [maxResults] is an integer ([Z]).
    - A [Map] is a [gmap].  A plain object used as a dictionary
      ([Record<string, boolean>]) is a [gmap] of its own keys; reading it
      with [object[key]] also finds what it inherits from
      [Object.prototype] ([plain_object_get]).
    - A promise that may reject is a [completion]; calls are run to
      completion one after another. *)

From Stdlib Require Import Ascii QArith Qminmax Qround Qpower Lqa Sorted.
From Stdlib Require Import SpecFloat.
From stdpp Require Import base strings list gmap pretty.

(** ** JavaScript values shared by the modules *)

Module Js.

(** A JSON value, as carried by [unknown] and [Record<string, unknown>]. *)
#[local] Unset Elimination Schemes.
Inductive json : Type :=
| JNull
| JBool (b : bool)
| JNum (q : Q)
| JStr (s : string)
| JArr (items : list json)
| JObj (fields : list (string * json)).
#[local] Set Elimination Schemes.

(** The outcome of awaiting a promise, or of a call that may throw. *)
Inductive completion (A : Type) : Type :=
| Normal (value : A)
| Throw (message : string).
Arguments Normal {A} value.
Arguments Throw {A} message.

(** Own-property lookup in an object literal (first binding wins). *)
Fixpoint obj_get (fields : list (string * json)) (key : string) : option json :=
  match fields with
  | [] => None
  | (k, v) :: rest => if String.eqb k key then Some v else obj_get rest key
  end.

(** The double-quote character, for message templates. *)
Definition dquote : string := String (Ascii.ascii_of_nat 34) EmptyString.

(** [arr.slice(0, end)]: a negative [end] counts from the end of the array. *)
Definition slice0 {A} (l : list A) (end_ : Z) : list A :=
  if (end_ <? 0)%Z then take (Z.to_nat (Z.of_nat (length l) + end_)) l
  else take (Z.to_nat end_) l.

(** [a || b] on an optional number: [undefined] and [0] are falsy. *)
Definition or_number (a : option Z) (b : Z) : Z :=
  match a with
  | Some n => if (n =? 0)%Z then b else n
  | None => b
  end.

(** *** Strings *)

Definition in_range (lo hi n : nat) : bool := (lo <=? n)%nat && (n <=? hi)%nat.

(** [String.prototype.toLowerCase] on one code unit below 256: [A-Z] and
    the upper-case letters U+00C0..U+00DE (U+00D7 is the times sign). *)
Definition toLowerCase_char (c : ascii) : ascii :=
  let n := nat_of_ascii c in
  if in_range 65 90 n || (in_range 192 222 n && negb (n =? 215)%nat)
  then ascii_of_nat (n + 32)
  else c.

Fixpoint toLowerCase (s : string) : string :=
  match s with
  | EmptyString => EmptyString
  | String c rest => String (toLowerCase_char c) (toLowerCase rest)
  end.

(** White space and line terminators that [trim] strips, below 256:
    TAB, LF, VT, FF, CR, SP and NBSP. *)
Definition isWhiteSpace (c : ascii) : bool :=
  let n := nat_of_ascii c in
  in_range 9 13 n || (n =? 32)%nat || (n =? 160)%nat.

Fixpoint trimStart (s : string) : string :=
  match s with
  | EmptyString => EmptyString
  | String c rest => if isWhiteSpace c then trimStart rest else s
  end.

Fixpoint trimEnd (s : string) : string :=
  match s with
  | EmptyString => EmptyString
  | String c rest =>
    match trimEnd rest with
    | EmptyString => if isWhiteSpace c then EmptyString else String c EmptyString
    | kept => String c kept
    end
  end.

Definition trim (s : string) : string := trimEnd (trimStart s).

Definition isDigit (c : ascii) : bool := in_range 48 57 (nat_of_ascii c).
Definition isAsciiLetter (c : ascii) : bool :=
  let n := nat_of_ascii c in in_range 65 90 n || in_range 97 122 n.

(** The class [\w] of a regular expression without the [u] flag:
    [A-Za-z0-9_]; [\W] is its complement. *)
Definition isWordChar (c : ascii) : bool :=
  isAsciiLetter c || isDigit c || (nat_of_ascii c =? 95)%nat.
Definition isNonWordChar (c : ascii) : bool := negb (isWordChar c).

(** [s.split(/C+/)] for a character class [C]: the pieces between the
    maximal runs of characters of [C], a leading and a trailing empty
    piece included.  [piece] is the piece read so far, [in_run] tells that
    the previous character was a separator. *)
Fixpoint split_runs_from (sep : ascii → bool) (s piece : string) (in_run : bool)
    : list string :=
  match s with
  | EmptyString => [piece]
  | String c rest =>
    if sep c then
      if in_run then split_runs_from sep rest piece true
      else piece :: split_runs_from sep rest EmptyString true
    else split_runs_from sep rest (piece +:+ String c EmptyString) false
  end.

Definition split_runs (sep : ascii → bool) (s : string) : list string :=
  split_runs_from sep s EmptyString false.

(** [parts.join(sep)]. *)
Definition join (sep : string) (parts : list string) : string :=
  String.concat sep parts.

(** *** Plain objects

    [object[key]] on an object that was created by [{}] and whose own
    properties are the entries of a map.  An own property is found first.
    Otherwise the key is looked up on [Object.prototype]: its properties
    are functions, and for [__proto__] the prototype itself, so what is
    found there is neither [undefined] nor a boolean. *)
Definition Object_prototype_properties : list string :=
  ["constructor"; "__defineGetter__"; "__defineSetter__"; "hasOwnProperty";
   "__lookupGetter__"; "__lookupSetter__"; "isPrototypeOf";
   "propertyIsEnumerable"; "toString"; "valueOf"; "__proto__";
   "toLocaleString"].

Inductive property_value (A : Type) : Type :=
| OwnProperty (value : A)
| InheritedProperty
| UndefinedProperty.
Arguments OwnProperty {A} value.
Arguments InheritedProperty {A}.
Arguments UndefinedProperty {A}.

Definition plain_object_get {A} (object : gmap string A) (key : string)
    : property_value A :=
  match object !! key with
  | Some value => OwnProperty value
  | None =>
    if bool_decide (key ∈ Object_prototype_properties) then InheritedProperty
    else UndefinedProperty
  end.

(** *** Numbers

    A finite double is carried as the rational it denotes.  An arithmetic
    operation is the exact operation followed by the rounding of IEEE 754
    binary64: to the nearest number with a significand of 53 bits, a tie
    going to the even significand.  The exponent is not bounded here: the
    magnitudes at hand (scores, bonuses, and the products of a constant
    with an index or a length of a string, which are integers below 2^53)
    stay within the normal range of the format, where nothing overflows
    and nothing is subnormal. *)
Module Double.

(** For [0 < x]: the exponent [e] with [2^e <= x < 2^(e+1)]. *)
Definition floor_log2 (x : Q) : Z :=
  let k := (Z.log2 (Qnum x) - Z.log2 (Zpos (Qden x)))%Z in
  if Qle_bool (2 ^ k) x then k else (k - 1)%Z.

(** The nearest integer, a tie going to the even one. *)
Definition round_half_even (x : Q) : Z :=
  let f := Qfloor x in
  match (x - inject_Z f ?= 1 # 2)%Q with
  | Lt => f
  | Gt => (f + 1)%Z
  | Eq => if Z.even f then f else (f + 1)%Z
  end.

(** For [0 < x]: the significand is the rounded multiple of [2^(e-52)]. *)
Definition round_positive (x : Q) : Q :=
  let e := floor_log2 x in
  (inject_Z (round_half_even (x * 2 ^ (52 - e))) * 2 ^ (e - 52))%Q.

(** The double nearest to a rational, in lowest terms. *)
Definition round (x : Q) : Q :=
  let x := Qred x in
  match Qnum x with
  | Z0 => 0%Q
  | Zpos _ => Qred (round_positive x)
  | Zneg _ => Qred (- round_positive (- x))
  end.

(** A decimal literal of the source denotes the double nearest to it. *)
Definition literal (x : Q) : Q := round x.

(** An index or a length of a string is a number exactly. *)
Definition of_nat (n : nat) : Q := inject_Z (Z.of_nat n).

(** [x + y], [x - y] and [x * y]. *)
Definition add (x y : Q) : Q := round (x + y).
Definition sub (x y : Q) : Q := round (x - y).
Definition mul (x y : Q) : Q := round (x * y).

(** [Math.max] and [Math.min] of two finite numbers. *)
Definition max (x y : Q) : Q := Qmax x y.
Definition min (x y : Q) : Q := Qmin x y.

End Double.

End Js.
Import Js.

(** ** Tools of the MCP SDK *)

(** [Tool]: the properties the subsystem reads and writes, and the other
    own properties of the object.  [defer_loading] is the optional property
    the middleware adds; [None] is an absent property. *)
Record Tool : Type := mkTool {
  name : string;
  description : option string;
  inputSchema : option json;
  defer_loading : option bool;
  other_properties : list (string * json);
}.

(** [TOOL_SEARCH_TOOL_NAME] and [TOOL_EXECUTE_TOOL_NAME]. *)
Definition TOOL_SEARCH_TOOL_NAME : string := "metamcp_search_tools".
Definition TOOL_EXECUTE_TOOL_NAME : string := "metamcp_execute_tool".

Inductive SearchMethod : Type := NONE | REGEX | BM25 | EMBEDDINGS.

Definition SearchMethod_name (m : SearchMethod) : string :=
  match m with
  | NONE => "NONE"
  | REGEX => "REGEX"
  | BM25 => "BM25"
  | EMBEDDINGS => "EMBEDDINGS"
  end.

(** ** The defer-loading middleware ([defer-loading.ts]) *)

Module DeferLoading.

Inductive DeferLoadingBehavior : Type := INHERIT | ENABLED | DISABLED.

(** The run-time values of a search-method field.  [EndpointConfig]
    declares [SearchMethod | "INHERIT"]; the resolver also tests for
    [undefined], and the [endpoints.override_search_method] column is
    nullable, so a row read from the store carries [null]. *)
Inductive SearchMethodField : Type :=
| SM (m : SearchMethod)
| SM_INHERIT
| SM_undefined
| SM_null.

Record NamespaceConfig : Type := {
  default_defer_loading : bool;
  default_search_method : SearchMethod;
}.

(** [override_defer_loading]: [None] is a value that is none of the three
    strings ([null] or [undefined]). *)
Record EndpointConfig : Type := {
  override_defer_loading : option DeferLoadingBehavior;
  override_search_method : SearchMethodField;
}.

(** [ToolOverrides = Record<string, boolean>], over its own keys. *)
Abbreviation ToolOverrides := (gmap string bool).

Record ResolvedDeferLoadingConfig : Type := {
  deferLoadingEnabled : bool;
  searchMethod : SearchMethodField;
  toolOverrides : ToolOverrides;
}.

(** [resolveDeferLoadingConfig]. *)
Definition resolveDeferLoadingConfig
    (namespace : NamespaceConfig) (endpoint : EndpointConfig)
    (toolOverrides : ToolOverrides) : ResolvedDeferLoadingConfig :=
  let deferLoadingEnabled :=
    match override_defer_loading endpoint with
    | Some ENABLED => true
    | Some DISABLED => false
    | _ => default_defer_loading namespace
    end in
  let searchMethod :=
    match override_search_method endpoint with
    | SM_INHERIT => SM (default_search_method namespace)
    | SM_undefined => SM (default_search_method namespace)
    | other => other
    end in
  {| deferLoadingEnabled := deferLoadingEnabled;
     searchMethod := searchMethod;
     toolOverrides := toolOverrides |}.

(** [getFailSafeConfig]. *)
Definition getFailSafeConfig : ResolvedDeferLoadingConfig :=
  {| deferLoadingEnabled := false;
     searchMethod := SM NONE;
     toolOverrides := ∅ |}.

(** *** Rows of the store *)

(** The columns the middleware reads.  [namespaces.default_*] are
    [NOT NULL]; [endpoints.override_defer_loading] and
    [endpoints.override_search_method] are nullable, and the latter has the
    enum type [tool_search_method], which has no [INHERIT] member. *)
Record NamespaceRow : Type := {
  ns_default_defer_loading : bool;
  ns_default_search_method : SearchMethod;
}.

Record EndpointRow : Type := {
  ep_override_defer_loading : option DeferLoadingBehavior;
  ep_override_search_method : option SearchMethod;
}.

Definition column_search_method (c : option SearchMethod) : SearchMethodField :=
  match c with
  | Some m => SM m
  | None => SM_null
  end.

(** The three repositories, each call resolving or rejecting. *)
Record Repositories : Type := {
  namespacesRepository_findByUuid : string → completion (option NamespaceRow);
  endpointsRepository_findByUuid : string → completion (option EndpointRow);
  findToolDeferLoadingOverrides : string → completion ToolOverrides;
}.

(** *** The middleware object and its effects *)

(** What a call does to the outside: reads of the store and error logs. *)
Inductive Event : Type :=
| FindNamespace (namespaceUuid : string)
| FindEndpoint (endpointUuid : string)
| FindOverrides (namespaceUuid : string)
| ConsoleError.

(** [configCache].  [pendingFetches] holds a promise only between the start
    of a call and its [finally]; with calls run one after another it is
    empty at every call boundary and is not part of the state. *)
Record Middleware : Type := {
  configCache : gmap string ResolvedDeferLoadingConfig;
}.

(** State and trace monad of the middleware methods. *)
Definition M (A : Type) : Type := Middleware → A * Middleware * list Event.

Definition ret {A} (a : A) : M A := λ mw, (a, mw, []).
Definition bind {A B} (m : M A) (k : A → M B) : M B :=
  λ mw, let '(a, mw1, t1) := m mw in
        let '(b, mw2, t2) := k a mw1 in
        (b, mw2, t1 ++ t2).
Definition emit (e : Event) : M unit := λ mw, (tt, mw, [e]).
Definition await {A} (e : Event) (p : completion A) : M (completion A) :=
  λ mw, (p, mw, [e]).
Definition cache_get (key : string) : M (option ResolvedDeferLoadingConfig) :=
  λ mw, (configCache mw !! key, mw, []).
Definition cache_set (key : string) (c : ResolvedDeferLoadingConfig) : M unit :=
  λ mw, (tt, {| configCache := <[key := c]> (configCache mw) |}, []).

#[local] Instance M_ret : MRet M := @ret.
#[local] Instance M_bind : MBind M := λ A B k m, bind m k.

(** The [catch] block and the missing-namespace branch: log, then the
    fail-safe config. *)
Definition failSafe : M ResolvedDeferLoadingConfig :=
  emit ConsoleError ;; ret getFailSafeConfig.

(** [fetchAndCacheConfig]. *)
Definition fetchAndCacheConfig (repos : Repositories)
    (namespaceUuid endpointUuid : string) : M ResolvedDeferLoadingConfig :=
  let cacheKey := endpointUuid in
  r ← await (FindNamespace namespaceUuid)
            (namespacesRepository_findByUuid repos namespaceUuid);
  match r with
  | Throw _ => failSafe
  | Normal None => failSafe
  | Normal (Some namespace) =>
    r ← await (FindEndpoint endpointUuid)
              (endpointsRepository_findByUuid repos endpointUuid);
    match r with
    | Throw _ => failSafe
    | Normal endpoint =>
      r ← await (FindOverrides namespaceUuid)
                (findToolDeferLoadingOverrides repos namespaceUuid);
      match r with
      | Throw _ => failSafe
      | Normal toolOverrides =>
        let resolved :=
          resolveDeferLoadingConfig
            {| default_defer_loading := ns_default_defer_loading namespace;
               default_search_method := ns_default_search_method namespace |}
            match endpoint with
            | Some endpoint =>
              {| override_defer_loading := ep_override_defer_loading endpoint;
                 override_search_method :=
                   column_search_method (ep_override_search_method endpoint) |}
            | None =>
              {| override_defer_loading := Some INHERIT;
                 override_search_method := SM_INHERIT |}
            end
            toolOverrides in
        cache_set cacheKey resolved ;;
        ret resolved
      end
    end
  end.

(** [getResolvedConfig]. *)
Definition getResolvedConfig (repos : Repositories)
    (namespaceUuid endpointUuid : string) : M ResolvedDeferLoadingConfig :=
  let cacheKey := endpointUuid in
  cached ← cache_get cacheKey;
  match cached with
  | Some cached => ret cached
  | None => fetchAndCacheConfig repos namespaceUuid endpointUuid
  end.

(** [invalidateCache] and [clearCache]. *)
Definition invalidateCache (endpointUuid : string) : M unit :=
  λ mw, (tt, {| configCache := delete endpointUuid (configCache mw) |}, []).
Definition clearCache : M unit :=
  λ mw, (tt, {| configCache := ∅ |}, []).

(** The object literal a config is, property by property. *)
Definition SearchMethodField_json (f : SearchMethodField) : option json :=
  match f with
  | SM m => Some (JStr (SearchMethod_name m))
  | SM_INHERIT => Some (JStr "INHERIT")
  | SM_undefined => None
  | SM_null => Some JNull
  end.

Definition config_object (c : ResolvedDeferLoadingConfig) : list (string * json) :=
  [("deferLoadingEnabled", JBool (deferLoadingEnabled c))]
  ++ match SearchMethodField_json (searchMethod c) with
     | Some v => [("searchMethod", v)]
     | None => []
     end
  ++ [("toolOverrides",
       JObj (prod_map id JBool <$> map_to_list (toolOverrides c)))].

(** *** Flag application *)

(** Object identities and the store of tool objects. *)
Abbreviation ref := positive.
Abbreviation Heap := (gmap positive Tool).

(** An object literal evaluates to a new object. *)
Definition new_object (o : Tool) (h : Heap) : ref * Heap :=
  let r := fresh (dom h) in (r, <[r := o]> h).

(** [{ ...tool, defer_loading: true }]. *)
Definition spread_defer_loading (tool : Tool) : Tool :=
  {| name := name tool;
     description := description tool;
     inputSchema := inputSchema tool;
     defer_loading := Some true;
     other_properties := other_properties tool |}.

(** The callback of [tools.map] in [applyDeferLoading]: it returns the
    reference it was given or a reference to a new object.  A reference
    outside the store does not occur; it is returned as it is. *)
Definition applyDeferLoading_tool (config : ResolvedDeferLoadingConfig)
    (tool : ref) (h : Heap) : ref * Heap :=
  match h !! tool with
  | None => (tool, h)
  | Some o =>
    if String.eqb (name o) TOOL_SEARCH_TOOL_NAME then (tool, h)
    else
      match plain_object_get (toolOverrides config) (name o) with
      | OwnProperty override =>
        if override then new_object (spread_defer_loading o) h
        else (tool, h)
      | InheritedProperty => (tool, h)
      | UndefinedProperty =>
        if deferLoadingEnabled config then new_object (spread_defer_loading o) h
        else (tool, h)
      end
  end.

(** [applyDeferLoading]: [Array.prototype.map], left to right. *)
Fixpoint applyDeferLoading (tools : list ref) (config : ResolvedDeferLoadingConfig)
    (h : Heap) : list ref * Heap :=
  match tools with
  | [] => ([], h)
  | tool :: rest =>
    let '(tool', h1) := applyDeferLoading_tool config tool h in
    let '(rest', h2) := applyDeferLoading rest config h1 in
    (tool' :: rest', h2)
  end.

(** The objects a list of references denotes. *)
Definition deref (h : Heap) (tools : list ref) : list (option Tool) :=
  (λ r, h !! r) <$> tools.

End DeferLoading.

(** ** The search interface ([search-interface.ts]) *)

Module SearchInterface.

Record ToolSearchQuery : Type := {
  query : string;
  maxResults : option Z;
  namespaceUuid : option string;
  endpointUuid : option string;
}.

(** An element of [availableTools]. *)
Record ToolWithServer : Type := {
  tool : Tool;
  serverUuid : string;
}.

(** [score] is a double. *)
Record ToolSearchResult : Type := {
  result_tool : Tool;
  result_serverUuid : string;
  score : Q;
  matchReason : string;
}.

(** A provider, as the service sees it. *)
Record ToolSearchProvider : Type := {
  provider_name : string;
  provider_search :
    ToolSearchQuery → list ToolWithServer → completion (list ToolSearchResult);
}.

(** The result both providers build for a tool when there is no query. *)
Definition no_query_result (t : ToolWithServer) : ToolSearchResult :=
  {| result_tool := tool t;
     result_serverUuid := serverUuid t;
     score := 0.5%Q;
     matchReason := "No search query provided" |}.

(** [results.sort((a, b) => b.score - a.score)]: the sort is stable, so an
    element goes before the first one whose score is not larger.  The
    difference of two doubles has the sign of their exact difference. *)
Fixpoint insert_by_score (r : ToolSearchResult) (sorted : list ToolSearchResult)
    : list ToolSearchResult :=
  match sorted with
  | [] => [r]
  | x :: rest =>
    if Qle_bool (score x) (score r) then r :: x :: rest
    else x :: insert_by_score r rest
  end.

Definition sort_by_score (results : list ToolSearchResult)
    : list ToolSearchResult :=
  foldr insert_by_score [] results.

End SearchInterface.
Import SearchInterface.

(** ** The REGEX provider ([regex-search-provider.ts]) *)

(** The regular expressions of the host: [new RegExp(pattern, flags)], which
    may throw a [SyntaxError], and [regex.exec(text)] for a regex without the
    [g] flag, which gives [match.index] and [match[0].length]. *)
Class RegExpEngine : Type := {
  RegExp : Type;
  RegExp_new : string → string → completion RegExp;
  RegExp_exec : RegExp → string → option (nat * nat);
}.

Module RegexSearchProvider.

Inductive Field : Type := FieldName | FieldDescription.

Definition Field_name (f : Field) : string :=
  match f with
  | FieldName => "name"
  | FieldDescription => "description"
  end.

Record RegexSearchConfig : Type := {
  pattern : option string;
  caseInsensitive : option bool;
  fields : option (list Field);
}.

(** The initial value of [this.config]. *)
Definition initial_config : RegexSearchConfig :=
  {| pattern := None;
     caseInsensitive := Some true;
     fields := Some [FieldName; FieldDescription] |}.

(** [initialize]: [{ ...this.config, ...config }]. *)
Definition initialize (this config : RegexSearchConfig) : RegexSearchConfig :=
  {| pattern := if pattern config is Some p then Some p else pattern this;
     caseInsensitive :=
       if caseInsensitive config is Some c then Some c else caseInsensitive this;
     fields := if fields config is Some f then Some f else fields this |}.

Record Match : Type := {
  field : Field;
  index : nat;
  length : nat;
}.

(** The characters of the class in [escapeRegexLiteral]:
    [. * + ? ^ $ { } ( ) | [ ] \]. *)
Definition isRegexSpecial (c : ascii) : bool :=
  bool_decide (nat_of_ascii c ∈
    [46; 42; 43; 63; 94; 36; 123; 125; 40; 41; 124; 91; 93; 92]%nat).

(** [escapeRegexLiteral]. *)
Fixpoint escapeRegexLiteral (str : string) : string :=
  match str with
  | EmptyString => EmptyString
  | String c rest =>
    if isRegexSpecial c
    then String (ascii_of_nat 92) (String c (escapeRegexLiteral rest))
    else String c (escapeRegexLiteral rest)
  end.

(** [calculateScore]: the body of the loop, and the function. *)
Definition match_score (m : Match) : Q :=
  let score := 0%Q in
  let score :=
    match field m with
    | FieldName => Double.add score (Double.literal 0.6)
    | _ => Double.add score (Double.literal 0.3)
    end in
  let positionBonus :=
    Double.max (Double.literal 0.05)
               (Double.sub (Double.literal 0.2)
                           (Double.mul (Double.of_nat (index m))
                                       (Double.literal 0.003))) in
  let score := Double.add score positionBonus in
  let lengthBonus :=
    Double.min (Double.literal 0.2)
               (Double.mul (Double.of_nat (length m)) (Double.literal 0.02)) in
  let score := Double.add score lengthBonus in
  score.

Definition calculateScore (matches : list Match) : Q :=
  let totalScore :=
    fold_left (λ totalScore m, Double.add totalScore (match_score m))
              matches 0%Q in
  Double.min (Double.literal 1.0) totalScore.

(** [[...new Set(xs)]]: the first occurrences, in order. *)
Fixpoint unique (xs : list string) : list string :=
  match xs with
  | [] => []
  | x :: rest => x :: List.filter (λ y, negb (String.eqb x y)) (unique rest)
  end.

(** [buildMatchReason]. *)
Definition buildMatchReason (matches : list Match) : string :=
  let fieldMatches := (λ m, Field_name (field m)) <$> matches in
  let uniqueFields := unique fieldMatches in
  match uniqueFields with
  | [only] => "Matched in " +:+ only
  | _ => "Matched in " +:+ join ", " uniqueFields
  end.

Section WithEngine.
Context {engine : RegExpEngine}.

(** [searchTool]. *)
Definition searchTool (tool : Tool) (regex : RegExp) (fields : list Field)
    : list Match :=
  omap (λ field,
          let text :=
            match field with
            | FieldName => name tool
            | _ => if description tool is Some d
                   then (if String.eqb d "" then "" else d)
                   else ""
            end in
          match RegExp_exec regex text with
          | Some (index, length) =>
            Some {| field := field; index := index; length := length |}
          | None => None
          end)
       fields.

(** The loop of [search] over [availableTools]. *)
Definition matching_results (regex : RegExp) (fields : list Field)
    (availableTools : list ToolWithServer) : list ToolSearchResult :=
  omap (λ t,
          let matches := searchTool (tool t) regex fields in
          if (0 <? List.length matches)%nat then
            Some {| result_tool := tool t;
                    result_serverUuid := serverUuid t;
                    score := calculateScore matches;
                    matchReason := buildMatchReason matches |}
          else None)
       availableTools.

(** [search]. *)
Definition search (this : RegexSearchConfig) (query : ToolSearchQuery)
    (availableTools : list ToolWithServer)
    : completion (list ToolSearchResult) :=
  let hasCustomPattern := bool_decide (is_Some (pattern this)) in
  let hasQuery :=
    negb (String.eqb (SearchInterface.query query) "")
    && (0 <? String.length (trim (SearchInterface.query query)))%nat in
  if negb hasCustomPattern && negb hasQuery then
    let maxResults := or_number (maxResults query) 5 in
    Normal (no_query_result <$> slice0 availableTools maxResults)
  else
    let pattern :=
      match pattern this with
      | Some p => if String.eqb p "" then
                    escapeRegexLiteral (SearchInterface.query query)
                  else p
      | None => escapeRegexLiteral (SearchInterface.query query)
      end in
    let flags := if caseInsensitive this is Some true then "i" else "" in
    let compiled :=
      match RegExp_new pattern flags with
      | Normal regex => Normal regex
      | Throw _ =>
        let escapedQuery := escapeRegexLiteral (SearchInterface.query query) in
        RegExp_new escapedQuery flags
      end in
    match compiled with
    | Throw e => Throw e
    | Normal regex =>
      let fields :=
        if fields this is Some f then f else [FieldName; FieldDescription] in
      let results := matching_results regex fields availableTools in
      let results := sort_by_score results in
      let maxResults := or_number (maxResults query) 5 in
      Normal (slice0 results maxResults)
    end.

End WithEngine.

End RegexSearchProvider.

(** *** An engine for literal patterns

    The patterns [escapeRegexLiteral] produces, and configured patterns
    without operators, denote a literal text: a backslash followed by a
    special character stands for that character.  On these the host's
    [exec] is a substring search, case-insensitive under the flag [i]
    (letters below 256 are compared through [toLowerCase]).  Patterns with
    operators are outside this engine. *)

Module LiteralRegExp.

Fixpoint literal_of_pattern (pattern : string) : option string :=
  match pattern with
  | EmptyString => Some EmptyString
  | String c rest =>
    if (nat_of_ascii c =? 92)%nat then
      match rest with
      | String d rest' =>
        if RegexSearchProvider.isRegexSpecial d
        then String d <$> literal_of_pattern rest'
        else None
      | EmptyString => None
      end
    else if RegexSearchProvider.isRegexSpecial c then None
    else String c <$> literal_of_pattern rest
  end.

Definition exec (regex : string * bool) (text : string) : option (nat * nat) :=
  let '(literal, ignoreCase) := regex in
  let found :=
    if ignoreCase
    then String.index 0 (toLowerCase literal) (toLowerCase text)
    else String.index 0 literal text in
  (λ index, (index, String.length literal)) <$> found.

#[export] Instance engine : RegExpEngine := {|
  RegExp := string * bool;
  RegExp_new pattern flags :=
    match literal_of_pattern pattern with
    | Some literal => Normal (literal, String.eqb flags "i")
    | None => Throw "pattern with operators"
    end;
  RegExp_exec := exec;
|}.

End LiteralRegExp.

(** ** The BM25 provider ([bm25-search-provider.ts]) *)

Module BM25SearchProvider.

(** [BM25Config], and the parameters a provider object holds. *)
Record BM25Config : Type := {
  k1 : option Q;
  b : option Q;
  fields : option (list string);
}.

Record BM25SearchProvider : Type := {
  this_k1 : Q;
  this_b : Q;
  this_fields : list string;
}.

(** The initial values of the fields of a provider. *)
Definition initial_provider : BM25SearchProvider :=
  {| this_k1 := 1.2%Q;
     this_b := 0.75%Q;
     this_fields := ["name"; "description"] |}.

(** [initialize]. *)
Definition initialize (this : BM25SearchProvider) (config : BM25Config)
    : BM25SearchProvider :=
  {| this_k1 := if k1 config is Some k then k else this_k1 this;
     this_b := if b config is Some x then x else this_b this;
     this_fields := if fields config is Some f then f else this_fields this |}.

Record Document : Type := {
  doc_tool : Tool;
  doc_serverUuid : string;
  tokens : gmap string nat;
  length : nat;
}.

(** [extractText]. *)
Definition extractText (this : BM25SearchProvider) (tool : Tool) : string :=
  let parts :=
    omap (λ field,
            if String.eqb field "name" then Some (name tool)
            else if String.eqb field "description" then
              match description tool with
              | Some d => if String.eqb d "" then None else Some d
              | None => None
              end
            else None)
         (this_fields this) in
  join " " parts.

(** [tokenize]. *)
Definition tokenize (text : string) : list string :=
  List.filter (λ token, (0 <? String.length token)%nat)
              (split_runs isNonWordChar (toLowerCase text)).

(** [calculateTermFrequency]. *)
Definition calculateTermFrequency (tokens : list string) : gmap string nat :=
  foldl (λ freq token, <[token := (default 0 (freq !! token) + 1)%nat]> freq)
        ∅ tokens.

(** The documents [buildIndex] stores in [this.documents]. *)
Definition buildIndex (this : BM25SearchProvider)
    (availableTools : list ToolWithServer) : list Document :=
  (λ t,
     let text := extractText this (tool t) in
     let tokens := tokenize text in
     let termFreq := calculateTermFrequency tokens in
     {| doc_tool := tool t;
        doc_serverUuid := serverUuid t;
        tokens := termFreq;
        length := List.length tokens |}) <$> availableTools.

(** [[...new Set(xs)]]: the first occurrences, in order. *)
Fixpoint unique (xs : list string) : list string :=
  match xs with
  | [] => []
  | x :: rest => x :: List.filter (λ y, negb (String.eqb x y)) (unique rest)
  end.

(** [buildMatchReason]. *)
Definition buildMatchReason (queryTokens : list string) (doc : Document) : string :=
  let matchedTerms :=
    List.filter (λ term, bool_decide (is_Some (tokens doc !! term))) queryTokens in
  if (List.length matchedTerms =? 0)%nat then "No direct term matches"
  else
    let uniqueMatched := unique matchedTerms in
    match uniqueMatched with
    | [only] => "Matched term: " +:+ dquote +:+ only +:+ dquote
    | _ =>
      if (List.length uniqueMatched <=? 3)%nat then
        "Matched terms: " +:+
        join ", " ((λ t, dquote +:+ t +:+ dquote) <$> uniqueMatched)
      else "Matched " +:+ pretty (List.length uniqueMatched) +:+ " terms"
    end.

Section WithScore.
(** [calculateBM25Score] over the index: the average document length, the
    inverse document frequencies ([Math.log]) and the normalised sum are
    floating-point computations; the score they give to a document is taken
    from the host. *)
Variable calculateBM25Score :
  BM25SearchProvider → list Document → list string → Document → Q.

(** [search]. *)
Definition search (this : BM25SearchProvider) (query : ToolSearchQuery)
    (availableTools : list ToolWithServer) : list ToolSearchResult :=
  if String.eqb (SearchInterface.query query) ""
     || (String.length (trim (SearchInterface.query query)) =? 0)%nat
  then
    let maxResults := or_number (maxResults query) 5 in
    no_query_result <$> slice0 availableTools maxResults
  else
    let documents := buildIndex this availableTools in
    let queryTokens := tokenize (SearchInterface.query query) in
    if (List.length queryTokens =? 0)%nat then []
    else
      let results :=
        omap (λ doc,
                let score := calculateBM25Score this documents queryTokens doc in
                if Qlt_le_dec 0 score then
                  Some {| result_tool := doc_tool doc;
                          result_serverUuid := doc_serverUuid doc;
                          score := score;
                          matchReason := buildMatchReason queryTokens doc |}
                else None)
             documents in
      let results := sort_by_score results in
      let maxResults := or_number (maxResults query) 5 in
      slice0 results maxResults.

End WithScore.

End BM25SearchProvider.

(** ** The provider registry ([search-provider-factory.ts]) *)

#[global] Instance SearchMethod_eq_dec : EqDecision SearchMethod.
Proof. solve_decision. Defined.

Module SearchProviderFactory.

(** What [new ProviderClass()] gives: the provider, and its [initialize]
    method when it has one, which gives the provider as initialised or
    rejects. *)
Record ProviderConstructor : Type := {
  new_provider : ToolSearchProvider;
  provider_initialize : option (json → completion ToolSearchProvider);
}.

(** [providers]: a [Map], in insertion order. *)
Abbreviation Registry := (list (SearchMethod * ProviderConstructor)).

(** [Map.prototype.set], [get], [has] and [keys]. *)
Fixpoint Map_set (providers : Registry) (method : SearchMethod)
    (provider : ProviderConstructor) : Registry :=
  match providers with
  | [] => [(method, provider)]
  | (m, p) :: rest =>
    if decide (m = method) then (method, provider) :: rest
    else (m, p) :: Map_set rest method provider
  end.

Fixpoint Map_get (providers : Registry) (method : SearchMethod)
    : option ProviderConstructor :=
  match providers with
  | [] => None
  | (m, p) :: rest => if decide (m = method) then Some p else Map_get rest method
  end.

Definition Map_has (providers : Registry) (method : SearchMethod) : bool :=
  bool_decide (is_Some (Map_get providers method)).

Definition Map_keys (providers : Registry) : list SearchMethod :=
  fst <$> providers.

(** [register]. *)
Definition register (providers : Registry) (method : SearchMethod)
    (provider : ProviderConstructor) : Registry :=
  Map_set providers method provider.

(** The truthiness of an optional JSON value. *)
Definition truthy (v : option json) : bool :=
  match v with
  | None => false
  | Some JNull => false
  | Some (JBool b) => b
  | Some (JNum q) => negb (Qeq_bool q 0)
  | Some (JStr s) => negb (String.eqb s "")
  | Some (JArr _) => true
  | Some (JObj _) => true
  end.

(** [create]. *)
Definition create (providers : Registry) (method : SearchMethod)
    (config : option json) : completion ToolSearchProvider :=
  if decide (method = NONE) then
    Throw "Cannot create provider for NONE search method. Use a specific search method."
  else
    match Map_get providers method with
    | None =>
      Throw ("Search provider " +:+ dquote +:+ SearchMethod_name method +:+ dquote
             +:+ " is not registered. Available providers: "
             +:+ join ", " (SearchMethod_name <$> Map_keys providers))
    | Some ProviderClass =>
      let provider := new_provider ProviderClass in
      match provider_initialize ProviderClass with
      | Some initialize =>
        if truthy config then
          initialize (if config is Some c then c else JNull)
        else Normal provider
      | None => Normal provider
      end
    end.

(** [isSupported]. *)
Definition isSupported (providers : Registry) (method : SearchMethod) : bool :=
  if decide (method = NONE) then true else Map_has providers method.

(** [getSupportedMethods]. *)
Definition getSupportedMethods (providers : Registry) : list SearchMethod :=
  NONE :: Map_keys providers.

(** The registry after the static initialisation block, for the two
    provider classes. *)
Definition registered (RegexSearchProvider BM25SearchProvider : ProviderConstructor)
    : Registry :=
  register (register [] REGEX RegexSearchProvider) BM25 BM25SearchProvider.

End SearchProviderFactory.

(** ** The tool-search service ([tool-search-service.ts]) *)

Module ToolSearchService.

Record ResolvedSearchConfig : Type := {
  searchMethod : SearchMethod;
  maxResults : Z;
  providerConfig : option json;
}.

(** [providerCache]. *)
Abbreviation ProviderCache := (gmap string ToolSearchProvider).

Section WithFactory.
(** [SearchProviderFactory.create] and [JSON.stringify]. *)
Variable SearchProviderFactory_create :
  SearchMethod → option json → completion ToolSearchProvider.
Variable JSON_stringify : json → string.

(** [getProvider].  The key is made of the method and of [config || {}]. *)
Definition getProvider (method : SearchMethod) (config : option json)
    (providerCache : ProviderCache)
    : completion ToolSearchProvider * ProviderCache :=
  let cacheKey :=
    SearchMethod_name method +:+ ":" +:+
    JSON_stringify (if SearchProviderFactory.truthy config
                    then default (JObj []) config
                    else JObj []) in
  match providerCache !! cacheKey with
  | Some provider => (Normal provider, providerCache)
  | None =>
    match SearchProviderFactory_create method config with
    | Throw e => (Throw e, providerCache)
    | Normal provider => (Normal provider, <[cacheKey := provider]> providerCache)
    end
  end.

(** The result the service builds for a tool when the method is [NONE]. *)
Definition search_disabled_result (t : ToolWithServer) : ToolSearchResult :=
  {| result_tool := tool t;
     result_serverUuid := serverUuid t;
     score := 0.5%Q;
     matchReason := "Search disabled (method: NONE)" |}.

(** [search]. *)
Definition search (query : ToolSearchQuery)
    (availableTools : list ToolWithServer) (config : ResolvedSearchConfig)
    (providerCache : ProviderCache)
    : completion (list ToolSearchResult) * ProviderCache :=
  match searchMethod config with
  | NONE => (Normal (search_disabled_result <$> availableTools), providerCache)
  | method =>
    match getProvider method (providerConfig config) providerCache with
    | (Throw e, providerCache) => (Throw e, providerCache)
    | (Normal provider, providerCache) =>
      let queryWithDefaults :=
        {| query := SearchInterface.query query;
           SearchInterface.maxResults :=
             Some (or_number (SearchInterface.maxResults query)
                             (maxResults config));
           namespaceUuid := namespaceUuid query;
           endpointUuid := endpointUuid query |} in
      (provider_search provider queryWithDefaults availableTools, providerCache)
    end
  end.

End WithFactory.

End ToolSearchService.

(** ** The built-in execute tool ([tool-execute-tool.ts]) *)

Module ToolExecuteTool.

Record ToolExecuteArguments : Type := {
  tool_name : string;
  arguments : json;
}.

Inductive ContentBlock : Type :=
| TextContent (text : string)
| OtherContent (block : json).

Record CallToolResult : Type := {
  content : list ContentBlock;
  isError : option bool;
}.

(** The fields of an AJV [ErrorObject] that are read. *)
Record ErrorObject : Type := {
  instancePath : string;
  keyword : string;
  message : option string;
}.

(** What a dispatch does besides computing its result. *)
Inductive Event : Type :=
| FindInPool (toolName : string)
| ValidateArguments (toolName : string) (args : json)
| CallProxy (toolName : string) (args : json).

(** The result of a call together with the trace of what it did. *)
Definition Traced (A : Type) : Type := A * list Event.

#[local] Instance Traced_ret : MRet Traced := λ A a, (a, []).
#[local] Instance Traced_bind : MBind Traced :=
  λ A B k m, let '(a, t1) := m in let '(b, t2) := k a in (b, t1 ++ t2).
Definition emit (e : Event) : Traced unit := (tt, [e]).

(** The schema used when a tool has none. *)
Definition default_schema : json :=
  JObj [("type", JStr "object");
        ("properties", JObj []);
        ("additionalProperties", JBool true)].

(** An error result with one text block. *)
Definition error_result (text : string) : CallToolResult :=
  {| content := [TextContent text]; isError := Some true |}.

(** The template literal of a string that may be [undefined]. *)
Definition show_optional (s : option string) : string :=
  if s is Some s then s else "undefined".

Section WithHost.
(** [ajv.compile(schema)], which may throw, giving the validator:
    whether the arguments are valid and [validate.errors]. *)
Variable ajv_compile :
  json → completion (json → bool * option (list ErrorObject)).
(** [JSON.stringify(value, null, 2)]. *)
Variable JSON_stringify : option json → string.

(** [validateToolArguments]. *)
Definition validateToolArguments (tool : Tool) (args : json)
    : bool * list ErrorObject :=
  let schema := if inputSchema tool is Some s then s else default_schema in
  match ajv_compile schema with
  | Normal validate =>
    let '(valid, errors) := validate args in
    (valid, if errors is Some es then es else [])
  | Throw err =>
    (false,
     [{| instancePath := "";
         keyword := "schema";
         message := Some ("Invalid tool schema: " +:+ err) |}])
  end.

(** [formatValidationErrors]. *)
Definition formatValidationErrors (errors : list ErrorObject) (tool : Tool)
    : string :=
  let maxErrors := 10%nat in
  let displayErrors := take maxErrors errors in
  let remaining := (Z.of_nat (List.length errors) - Z.of_nat maxErrors)%Z in
  let errorMessages :=
    join (String (ascii_of_nat 10) "")
      ((λ err,
          "  - " +:+
          (if String.eqb (instancePath err) "" then "(root)"
           else instancePath err) +:+
          ": " +:+ show_optional (message err)) <$> displayErrors) in
  let nl := String (ascii_of_nat 10) "" in
  let moreErrors :=
    if (0 <? remaining)%Z
    then nl +:+ "  ... and " +:+ pretty remaining +:+ " more errors"
    else "" in
  "Tool " +:+ dquote +:+ name tool +:+ dquote +:+ " validation failed:" +:+
  nl +:+ nl +:+ errorMessages +:+ moreErrors +:+ nl +:+ nl +:+
  "Expected schema:" +:+ nl +:+ "```json" +:+ nl +:+
  JSON_stringify (inputSchema tool) +:+ nl +:+ "```".

(** [executeToolExecution].  [proxyFunction] resolves or rejects. *)
Definition executeToolExecution (args : ToolExecuteArguments)
    (availableTools : list ToolWithServer)
    (proxyFunction : string → json → completion CallToolResult)
    : Traced CallToolResult :=
  if String.eqb (tool_name args) TOOL_EXECUTE_TOOL_NAME
     || String.eqb (tool_name args) TOOL_SEARCH_TOOL_NAME
  then
    mret (error_result
      ("Error: Cannot execute builtin tool " +:+ dquote +:+ tool_name args
       +:+ dquote +:+ " via metamcp_execute_tool"))
  else
    emit (FindInPool (tool_name args));;
    let targetTool :=
      List.find (λ t, String.eqb (name (tool t)) (tool_name args))
                availableTools in
    match targetTool with
    | None =>
      let nl := String (ascii_of_nat 10) "" in
      let toolList :=
        join nl ((λ t, "  - " +:+ name (tool t)) <$> take 10 availableTools) in
      let moreTools :=
        if (10 <? List.length availableTools)%nat
        then nl +:+ "  ... and " +:+
             pretty (List.length availableTools - 10)%nat +:+ " more tools"
        else "" in
      mret (error_result
        ("Error: Tool " +:+ dquote +:+ tool_name args +:+ dquote +:+
         " not found." +:+ nl +:+ nl +:+
         "Available tools:" +:+ nl +:+ toolList +:+ moreTools +:+ nl +:+ nl +:+
         "Use metamcp_search_tools to discover tools."))
    | Some targetTool =>
      emit (ValidateArguments (name (tool targetTool)) (arguments args));;
      let '(valid, errors) :=
        validateToolArguments (tool targetTool) (arguments args) in
      if negb valid then
        mret (error_result (formatValidationErrors errors (tool targetTool)))
      else
        emit (CallProxy (tool_name args) (arguments args));;
        match proxyFunction (tool_name args) (arguments args) with
        | Normal result => mret result
        | Throw error =>
          mret (error_result
            ("Error executing tool " +:+ dquote +:+ tool_name args +:+ dquote
             +:+ ": " +:+ error))
        end
    end.

End WithHost.

(** [haystack.includes(needle)], as a proposition. *)
Definition includes (haystack needle : string) : Prop :=
  ∃ before after, haystack = before +:+ needle +:+ after.

End ToolExecuteTool.

(** ** The zod schemas and the router of the config API
    ([tool-search.zod.ts], [tool-search-config.ts]) *)

Module ToolSearchZod.

Definition isHexDigit (c : ascii) : bool :=
  let n := nat_of_ascii c in
  in_range 48 57 n || in_range 65 70 n || in_range 97 102 n.

(** The shape zod's [uuid()] check asks for: five groups of 8, 4, 4, 4 and
    12 hexadecimal digits, joined by hyphens. *)
Definition is_uuid (s : string) : bool :=
  match split_runs (λ c, (nat_of_ascii c =? 45)%nat) s with
  | [a; b; c; d; e] =>
    bool_decide (String.length <$> [a; b; c; d; e] = [8; 4; 4; 4; 12]%nat)
    && forallb (λ g, forallb isHexDigit (String.list_ascii_of_string g)) [a; b; c; d; e]
    && (String.length s =? 36)%nat
  | _ => false
  end.

(** [Number.isInteger]. *)
Definition isInteger (q : Q) : bool := (Zpos (Qden (Qred q)) =? 1)%Z.

(** [z.number().min(lo).max(hi)], optionally with [.int()]. *)
Definition number_in (int : bool) (lo hi : Q) (v : json) : bool :=
  match v with
  | JNum q => (negb int || isInteger q) && Qle_bool lo q && Qle_bool q hi
  | _ => false
  end.

(** [.optional()]: an absent property passes. *)
Definition optional (check : json → bool) (v : option json) : bool :=
  if v is Some v then check v else true.

Definition is_string (v : json) : bool :=
  match v with JStr _ => true | _ => false end.

(** [BM25ConfigSchema]. *)
Definition BM25ConfigSchema (v : json) : bool :=
  match v with
  | JObj fields =>
    optional (number_in false 0 3) (obj_get fields "k1")
    && optional (number_in false 0 1) (obj_get fields "b")
    && optional (λ f, match f with
                      | JArr items => forallb is_string items
                      | _ => false
                      end) (obj_get fields "fields")
  | _ => false
  end.

(** [z.record(z.unknown()).nullable()]. *)
Definition record_unknown_nullable (v : json) : bool :=
  match v with
  | JObj _ => true
  | JNull => true
  | _ => false
  end.

(** The value [ToolSearchConfigUpsertInputSchema] parses to. *)
Record ToolSearchConfigUpsertInput : Type := {
  namespaceUuid : string;
  maxResults : Q;
  providerConfig : option json;
}.

(** [ToolSearchConfigUpsertInputSchema.safeParse]: [None] is a failed
    parse. *)
Definition ToolSearchConfigUpsertInputSchema (input : json)
    : option ToolSearchConfigUpsertInput :=
  match input with
  | JObj fields =>
    match obj_get fields "namespaceUuid", obj_get fields "maxResults" with
    | Some (JStr uuid), Some (JNum n) =>
      if is_uuid uuid
         && number_in true 1 20 (JNum n)
         && optional record_unknown_nullable (obj_get fields "providerConfig")
      then Some {| namespaceUuid := uuid;
                   maxResults := n;
                   providerConfig := obj_get fields "providerConfig" |}
      else None
    | _, _ => None
    end
  | _ => None
  end.

(** The [upsert] procedure of [createToolSearchConfigRouter], for an
    authenticated caller: the input is parsed by the schema; a failed parse
    is a [BAD_REQUEST] and the implementation is not called. *)
Inductive ProcedureResult (A : Type) : Type :=
| BadRequest
| Returned (a : A).
Arguments BadRequest {A}.
Arguments Returned {A} a.

Definition router_upsert {A} (upsert : ToolSearchConfigUpsertInput → A)
    (input : json) : ProcedureResult A :=
  match ToolSearchConfigUpsertInputSchema input with
  | Some parsed => Returned (upsert parsed)
  | None => BadRequest
  end.

(** A request names a BM25 parameter out of range: [k1] outside [0,3] or [b]
    outside [0,1] in its [providerConfig]. *)
Definition out_of_range (lo hi : Q) (v : option json) : bool :=
  match v with
  | Some (JNum q) => negb (Qle_bool lo q && Qle_bool q hi)
  | _ => false
  end.

Definition bm25_out_of_range (input : json) : bool :=
  match input with
  | JObj fields =>
    match obj_get fields "providerConfig" with
    | Some (JObj config) =>
      out_of_range 0 3 (obj_get config "k1")
      || out_of_range 0 1 (obj_get config "b")
    | _ => false
    end
  | _ => false
  end.

End ToolSearchZod.

(** ** The middleware entry points ([defer-loading.ts],
    [defer-loading.functional.ts]) *)

Module DeferLoadingMiddleware.
Import DeferLoading.

(** [process].  [getResolvedConfig] resolves in every case (its fetch
    catches what the store throws) and [applyDeferLoading] does not throw,
    so the [catch] block of [process] is not entered. *)
Definition process (repos : Repositories) (tools : list ref)
    (namespaceUuid endpointUuid : string) (h : Heap)
    : M (list ref * Heap) :=
  bind (getResolvedConfig repos namespaceUuid endpointUuid)
       (λ config, ret (applyDeferLoading tools config h)).

(** [getCacheStats]: the size of the cache and its keys (as a set: the
    order of [Map.keys] is not kept by the model). *)
Definition getCacheStats (mw : Middleware) : nat * gset string :=
  (size (configCache mw), dom (configCache mw)).

(** The response of a list-tools request: its tools and its other
    properties. *)
Record ListToolsResult : Type := {
  tools : list ref;
  response_properties : list (string * json);
}.

(** The handler context; [endpointUuid] may be absent. *)
Record MetaMCPHandlerContext : Type := {
  namespaceUuid : string;
  endpointUuid : option string;
}.

(** What [transformResponse] does to the outside: what the middleware
    object does, and a warning on the console. *)
Inductive Log : Type :=
| OfMiddleware (e : Event)
| ConsoleWarn.

(** [transformResponse] of [createDeferLoadingMiddleware(options)], with
    [enabled] the option as given ([None] when it is left out).  It gives
    the response, the store of tool objects, the middleware object and the
    log. *)
Definition transformResponse (enabled : option bool) (repos : Repositories)
    (response : ListToolsResult) (context : MetaMCPHandlerContext)
    (h : Heap) (mw : Middleware)
    : ListToolsResult * Heap * Middleware * list Log :=
  let enabled := if enabled is Some e then e else true in
  if negb enabled then (response, h, mw, [])
  else
    match endpointUuid context with
    | None => (response, h, mw, [ConsoleWarn])
    | Some endpoint =>
      if String.eqb endpoint "" then (response, h, mw, [ConsoleWarn])
      else
        let '(processedTools, h', mw', trace) :=
          process repos (tools response) (namespaceUuid context) endpoint h mw in
        ({| tools := processedTools;
            response_properties := response_properties response |},
         h', mw', OfMiddleware <$> trace)
    end.

End DeferLoadingMiddleware.

(** ** The built-in search tool ([tool-search-tool.ts]) *)

Module ToolSearchTool.

#[local] Abbreviation Tool_name := name.
#[local] Abbreviation Tool_description := description.

Record ToolSearchArguments : Type := {
  query : string;
  max_results : option Z;
}.

(** A block of type [tool_reference]. *)
Record ToolReferenceBlock : Type := {
  name : string;
  description : string;
}.

Record ToolSearchCallToolResult : Type := {
  content : list ToolReferenceBlock;
  isError : option bool;
}.



(** Two decimal digits. *)
Definition two_digits (n : Z) : string :=
  if (n <? 10)%Z then "0" +:+ pretty n else pretty n.

(** [x.toFixed(2)] for an exact [x] below 10^21: the integer [n] nearest to
    [100 x], the larger one of two, written with the point before its last
    two digits; the sign of a negative [x] goes in front. *)
Definition toFixed2 (x : Q) : string :=
  let digits (x : Q) :=
    let n := Qfloor (x * 100 + 0.5)%Q in
    pretty (n / 100)%Z +:+ "." +:+ two_digits (n mod 100)%Z in
  if Qlt_le_dec x 0 then "-" +:+ digits (- x)%Q else digits x.

(** [createToolReferenceBlock]. *)
Definition createToolReferenceBlock (result : ToolSearchResult)
    : ToolReferenceBlock :=
  let originalDesc :=
    match Tool_description (result_tool result) with
    | Some d => if String.eqb d "" then "No description available" else d
    | None => "No description available"
    end in
  let scoreFormatted := toFixed2 (score result) in
  {| name := Tool_name (result_tool result);
     description :=
       originalDesc +:+ " (score: " +:+ scoreFormatted +:+ ", "
       +:+ matchReason result +:+ ")" |}.

Section WithService.
(** The factory and [JSON.stringify] the service works with. *)
Variable SearchProviderFactory_create :
  SearchMethod → option json → completion ToolSearchProvider.
Variable JSON_stringify : json → string.

(** [executeToolSearch], on the provider cache of [toolSearchService]. *)
Definition executeToolSearch (args : ToolSearchArguments)
    (availableTools : list ToolWithServer)
    (searchConfig : ToolSearchService.ResolvedSearchConfig)
    (providerCache : ToolSearchService.ProviderCache)
    : completion ToolSearchCallToolResult * ToolSearchService.ProviderCache :=
  let maxResults :=
    or_number (max_results args) (ToolSearchService.maxResults searchConfig) in
  match ToolSearchService.search SearchProviderFactory_create JSON_stringify
          {| SearchInterface.query := query args;
             SearchInterface.maxResults := Some maxResults;
             namespaceUuid := None;
             endpointUuid := None |}
          availableTools searchConfig providerCache with
  | (Throw e, providerCache) => (Throw e, providerCache)
  | (Normal searchResults, providerCache) =>
    let toolReferenceBlocks := createToolReferenceBlock <$> searchResults in
    (Normal {| content := toolReferenceBlocks; isError := None |}, providerCache)
  end.

End WithService.

End ToolSearchTool.

(** ** The implementations behind the config router
    ([tool-search-config.impl.ts]) *)

Module ToolSearchConfigImpl.

(** A row of [tool_search_config]; [provider_config] is [JNull] for SQL
    [NULL]. *)
Record ToolSearchConfig : Type := {
  namespace_uuid : string;
  max_results : Q;
  provider_config : json;
  created_at : string;
  updated_at : string;
}.

(** The argument of [toolSearchConfigRepository.upsert]. *)
Record RepositoryUpsertInput : Type := {
  namespaceUuid : string;
  maxResults : Q;
  providerConfig : json;
}.

(** The two repository methods that are called; a rejection carries an
    [Error] with its message. *)
Record Repository : Type := {
  repository_findByNamespaceUuid :
    string → completion (option ToolSearchConfig);
  repository_upsert : RepositoryUpsertInput → completion ToolSearchConfig;
}.

Record ToolSearchConfigResponse : Type := {
  success : bool;
  data : option ToolSearchConfig;
  message : option string;
}.

(** What an implementation does besides computing its result. *)
Inductive Event : Type :=
| CallFind (namespaceUuid : string)
| CallUpsert (input : RepositoryUpsertInput)
| ConsoleError.

(** [toolSearchConfigImplementations.get]. *)
Definition get (repository : Repository) (namespaceUuid : string)
    : ToolSearchConfigResponse * list Event :=
  match repository_findByNamespaceUuid repository namespaceUuid with
  | Normal config =>
    ({| success := true; data := config; message := None |},
     [CallFind namespaceUuid])
  | Throw error =>
    ({| success := false; data := None; message := Some error |},
     [CallFind namespaceUuid; ConsoleError])
  end.

(** [toolSearchConfigImplementations.upsert]. *)
Definition upsert (repository : Repository)
    (input : ToolSearchZod.ToolSearchConfigUpsertInput)
    : completion ToolSearchConfigResponse * list Event :=
  let argument :=
    {| namespaceUuid := ToolSearchZod.namespaceUuid input;
       maxResults := ToolSearchZod.maxResults input;
       providerConfig :=
         match ToolSearchZod.providerConfig input with
         | Some JNull => JNull
         | Some config => config
         | None => JNull
         end |} in
  match repository_upsert repository argument with
  | Normal config =>
    (Normal {| success := true; data := Some config; message := None |},
     [CallUpsert argument])
  | Throw error => (Throw error, [CallUpsert argument; ConsoleError])
  end.

(** [GetToolSearchConfigRequestSchema.safeParse]. *)
Definition GetToolSearchConfigRequestSchema (input : json) : option string :=
  match input with
  | JObj fields =>
    match obj_get fields "namespaceUuid" with
    | Some (JStr uuid) => if ToolSearchZod.is_uuid uuid then Some uuid else None
    | _ => None
    end
  | _ => None
  end.

(** The [get] procedure of [createToolSearchConfigRouter], for an
    authenticated caller. *)
Definition router_get {A} (get : string → A) (input : json)
    : ToolSearchZod.ProcedureResult A :=
  match GetToolSearchConfigRequestSchema input with
  | Some namespaceUuid => ToolSearchZod.Returned (get namespaceUuid)
  | None => ToolSearchZod.BadRequest
  end.

End ToolSearchConfigImpl.

(** ** The per-tool overrides of a namespace
    ([namespace-mappings.repo.ts]) *)

#[global] Instance DeferLoadingBehavior_eq_dec :
  EqDecision DeferLoading.DeferLoadingBehavior.
Proof. solve_decision. Defined.

Module NamespaceMappingsRepository.
Import DeferLoading.

(** A row of [namespace_tool_mappings] joined with its tool and its
    server: the columns the query selects and filters on. *)
Record ToolMappingRow : Type := {
  namespace_uuid : string;
  defer_loading : DeferLoadingBehavior;
  tool_name : string;
  server_name : string;
}.

Section WithSanitizeName.
(** [sanitizeName] of [lib/metamcp/utils]. *)
Variable sanitizeName : string → string.

(** The [where] clause of the query. *)
Definition selected (namespaceUuid : string) (row : ToolMappingRow) : bool :=
  String.eqb (namespace_uuid row) namespaceUuid
  && (bool_decide (defer_loading row = ENABLED)
      || bool_decide (defer_loading row = DISABLED)).

Definition fullToolName (mapping : ToolMappingRow) : string :=
  sanitizeName (server_name mapping) +:+ "__" +:+ tool_name mapping.

(** [findToolDeferLoadingOverrides] over the joined rows of the table, in
    the order the query returns them. *)
Definition findToolDeferLoadingOverrides (rows : list ToolMappingRow)
    (namespaceUuid : string) : gmap string bool :=
  let mappings := List.filter (selected namespaceUuid) rows in
  foldl (λ overrides mapping,
           <[fullToolName mapping :=
               bool_decide (defer_loading mapping = ENABLED)]> overrides)
        ∅ mappings.

End WithSanitizeName.

End NamespaceMappingsRepository.

(** * Notions of the statements and example data *)

Section ResolverNotions.
Import DeferLoading.

(** A store in which the namespace defaults to BM25 and the endpoint row
    has no search-method override (the column is [NULL]). *)
Definition store_with_unset_override : Repositories :=
  {| namespacesRepository_findByUuid := λ _,
       Normal (Some {| ns_default_defer_loading := true;
                       ns_default_search_method := BM25 |});
     endpointsRepository_findByUuid := λ _,
       Normal (Some {| ep_override_defer_loading := Some INHERIT;
                       ep_override_search_method := None |});
     findToolDeferLoadingOverrides := λ _, Normal ∅ |}.

End ResolverNotions.

Section FlagNotions.
Import DeferLoading.

(** Whether the callback flags a tool object. *)
Definition flags (config : ResolvedDeferLoadingConfig) (o : Tool) : bool :=
  negb (String.eqb (name o) TOOL_SEARCH_TOOL_NAME)
  && match plain_object_get (toolOverrides config) (name o) with
     | OwnProperty override => override
     | InheritedProperty => false
     | UndefinedProperty => deferLoadingEnabled config
     end.

(** The object the callback's result denotes, for an argument denoting
    [o]. *)
Definition flagged (config : ResolvedDeferLoadingConfig) (o : Tool) : Tool :=
  if flags config o then spread_defer_loading o else o.

(** [r] is a clone of [o] made after [h]: a new object with the fields of
    [o] and [defer_loading = true]. *)
Definition is_clone (h h' : Heap) (r : ref) (o : Tool) : Prop :=
  (r ∉ dom h)
  ∧ h' !! r = Some {| name := name o;
                      description := description o;
                      inputSchema := inputSchema o;
                      defer_loading := Some true;
                      other_properties := other_properties o |}.

(** A store with a tool whose name is a property that every plain object
    inherits and a tool with an ordinary name, and a config with defer
    loading on and no override. *)
Definition heap_with_inherited_name : Heap :=
  list_to_map
    [(1%positive, mkTool "constructor" (Some "Build a project") None None []);
     (2%positive, mkTool "destructor" (Some "Clean a project") None None [])].

Definition config_without_overrides : ResolvedDeferLoadingConfig :=
  {| deferLoadingEnabled := true;
     searchMethod := SM BM25;
     toolOverrides := ∅ |}.

(** A store with three upstream tools and the search tool, and a config
    with defer loading on and one override, for the examples. *)
Definition example_heap : Heap :=
  list_to_map
    [(1%positive,
      mkTool "filesystem__read_file" (Some "Read a file") None None []);
     (2%positive,
      mkTool "filesystem__write_file" (Some "Write a file") None None []);
     (3%positive, mkTool "web__fetch_url" (Some "Fetch URL") None None []);
     (4%positive, mkTool TOOL_SEARCH_TOOL_NAME None None None [])].

Definition example_tools : list ref := [1; 2; 3; 4]%positive.

Definition example_config : ResolvedDeferLoadingConfig :=
  {| deferLoadingEnabled := true;
     searchMethod := SM BM25;
     toolOverrides := {[ "filesystem__read_file" := false ]} |}.

End FlagNotions.

Section CacheNotions.
Import DeferLoading.

(** The fetch of a resolved config fails: a repository call rejects, or
    the namespace is absent. *)
Inductive fetch_fails (repos : Repositories)
    (namespaceUuid endpointUuid : string) : Prop :=
| namespace_lookup_rejects e :
    namespacesRepository_findByUuid repos namespaceUuid = Throw e →
    fetch_fails repos namespaceUuid endpointUuid
| namespace_absent :
    namespacesRepository_findByUuid repos namespaceUuid = Normal None →
    fetch_fails repos namespaceUuid endpointUuid
| endpoint_lookup_rejects namespace e :
    namespacesRepository_findByUuid repos namespaceUuid = Normal (Some namespace) →
    endpointsRepository_findByUuid repos endpointUuid = Throw e →
    fetch_fails repos namespaceUuid endpointUuid
| overrides_lookup_rejects namespace endpoint e :
    namespacesRepository_findByUuid repos namespaceUuid = Normal (Some namespace) →
    endpointsRepository_findByUuid repos endpointUuid = Normal endpoint →
    findToolDeferLoadingOverrides repos namespaceUuid = Throw e →
    fetch_fails repos namespaceUuid endpointUuid.

(** The fail-safe object as the specification words it, with six
    properties. *)
Definition specified_fail_safe_object : list (string * json) :=
  [("deferLoadingEnabled", JBool false);
   ("searchMethod", JStr "NONE");
   ("toolVisibility", JStr "ALL");
   ("toolOverrides", JObj []);
   ("maxResults", JNum 5);
   ("providerConfig", JNull)].

(** A store whose namespace lookup rejects. *)
Definition failing_store : Repositories :=
  {| namespacesRepository_findByUuid := λ _, Throw "Database connection failed";
     endpointsRepository_findByUuid := λ _, Normal None;
     findToolDeferLoadingOverrides := λ _, Normal ∅ |}.

End CacheNotions.

Section ServiceNotions.
Import ToolSearchService.

Definition example_pool : list ToolWithServer :=
  [{| tool := mkTool "filesystem__read_file" (Some "Read a file") None None [];
      serverUuid := "server-1" |};
   {| tool := mkTool "filesystem__write_file" (Some "Write a file") None None [];
      serverUuid := "server-1" |};
   {| tool := mkTool "web__fetch_url" (Some "Fetch URL") None None [];
      serverUuid := "server-2" |}].

Definition example_query (q : string) (maxResults : option Z) : ToolSearchQuery :=
  {| query := q; SearchInterface.maxResults := maxResults;
     namespaceUuid := None; endpointUuid := None |}.

End ServiceNotions.

Section TokenizeNotions.
Import BM25SearchProvider.

(** The tokenization the specification words: lowercase, split on runs of
    characters outside [A-Za-z0-9], drop the empty tokens. *)
Definition isNonAlphanumeric (c : ascii) : bool :=
  negb (isAsciiLetter c || isDigit c).

Definition tokenize_as_specified (text : string) : list string :=
  List.filter (λ token, (0 <? String.length token)%nat)
              (split_runs isNonAlphanumeric (toLowerCase text)).

(** The two tokenizations differ on underscores only. *)
Fixpoint has_underscore (s : string) : bool :=
  match s with
  | EmptyString => false
  | String c rest => (nat_of_ascii c =? 95)%nat || has_underscore rest
  end.

End TokenizeNotions.

Section UpsertNotions.
Import ToolSearchZod.

(** An upsert request with [k1 = 10]. *)
Definition request_with_k1_out_of_range : json :=
  JObj [("namespaceUuid", JStr "123e4567-e89b-42d3-a456-426614174000");
        ("maxResults", JNum 5);
        ("providerConfig", JObj [("k1", JNum 10); ("b", JNum 0.75)])].

End UpsertNotions.

Section RegexScoreNotions.
Import RegexSearchProvider.

(** The score as the specification words it; every operation is the
    operation of the language on numbers. *)
Definition field_weight (f : Field) : Q :=
  match f with
  | FieldName => Double.literal 0.6
  | FieldDescription => Double.literal 0.3
  end.

Definition specified_match_score (m : Match) : Q :=
  Double.add
    (Double.add
       (field_weight (field m))
       (Double.max (Double.literal 0.05)
                   (Double.sub (Double.literal 0.20)
                               (Double.mul (Double.literal 0.003)
                                           (Double.of_nat (index m))))))
    (Double.min (Double.literal 0.20)
                (Double.mul (Double.literal 0.02) (Double.of_nat (length m)))).

Definition clamp_0_1 (x : Q) : Q := Double.max 0 (Double.min 1 x).

Definition specified_score (matches : list Match) : Q :=
  clamp_0_1 (foldl (λ sum m, Double.add sum (specified_match_score m))
                   0%Q matches).

(** What a search compiles and where it looks: the configured pattern, or
    the query as a literal when none is configured; the flag [i] unless
    case matters; the configured fields, or the name and the description. *)
Definition search_pattern (this : RegexSearchConfig) (query : ToolSearchQuery)
    : string :=
  match pattern this with
  | Some p => if String.eqb p "" then escapeRegexLiteral (SearchInterface.query query)
              else p
  | None => escapeRegexLiteral (SearchInterface.query query)
  end.

Definition search_flags (this : RegexSearchConfig) : string :=
  if caseInsensitive this is Some true then "i" else "".

Definition search_fields (this : RegexSearchConfig) : list Field :=
  if fields this is Some f then f else [FieldName; FieldDescription].

(** [regex] is the regular expression of a search: what the pattern
    compiles to or, when the engine rejects the pattern, what the query
    compiles to as a literal. *)
Inductive search_regex {engine : RegExpEngine} (this : RegexSearchConfig)
    (query : ToolSearchQuery) (regex : RegExp) : Prop :=
| pattern_compiles :
    RegExp_new (search_pattern this query) (search_flags this) = Normal regex →
    search_regex this query regex
| literal_query_compiles e :
    RegExp_new (search_pattern this query) (search_flags this) = Throw e →
    RegExp_new (escapeRegexLiteral (SearchInterface.query query))
               (search_flags this) = Normal regex →
    search_regex this query regex.

(** The loop body of [calculateScore] once more, on the binary64 numbers
    of the Standard Library ([SpecFloat]), to compare [Double] with: a
    decimal literal is the quotient of two integers, rounded once. *)
Definition binary64_of_Z (z : Z) : spec_float :=
  binary_normalize 53 1024 z 0 false.

Definition binary64_literal (numerator denominator : Z) : spec_float :=
  SFdiv 53 1024 (binary64_of_Z numerator) (binary64_of_Z denominator).

Definition binary64_max (x y : spec_float) : spec_float :=
  if SFltb x y then y else x.

Definition binary64_min (x y : spec_float) : spec_float :=
  if SFltb y x then y else x.

Definition binary64_match_score (m : Match) : spec_float :=
  let score := binary64_of_Z 0 in
  let score :=
    match field m with
    | FieldName => SFadd 53 1024 score (binary64_literal 6 10)
    | _ => SFadd 53 1024 score (binary64_literal 3 10)
    end in
  let positionBonus :=
    binary64_max (binary64_literal 5 100)
      (SFsub 53 1024 (binary64_literal 2 10)
         (SFmul 53 1024 (binary64_of_Z (Z.of_nat (index m)))
                        (binary64_literal 3 1000))) in
  let score := SFadd 53 1024 score positionBonus in
  let lengthBonus :=
    binary64_min (binary64_literal 2 10)
      (SFmul 53 1024 (binary64_of_Z (Z.of_nat (length m)))
                     (binary64_literal 2 100)) in
  let score := SFadd 53 1024 score lengthBonus in
  score.

(** The rational a finite binary64 number denotes, in lowest terms. *)
Definition binary64_value (x : spec_float) : option Q :=
  match x with
  | S754_zero _ => Some 0%Q
  | S754_finite s m e =>
    Some (Qred ((if s then -1 else 1) * inject_Z (Zpos m) * 2 ^ e)%Q)
  | _ => None
  end.

(** Matches in both fields, at indices on both sides of the decay of the
    position bonus and with lengths on both sides of the cap of the
    length bonus. *)
Definition sample_matches : list Match :=
  f ← [FieldName; FieldDescription];
  i ← [0; 1; 2; 5; 7; 17; 33; 49; 50; 51; 66; 67; 1000]%nat;
  l ← [0; 1; 3; 4; 5; 9; 10; 11; 40]%nat;
  [{| field := f; index := i; length := l |}].

(** A pool of one tool without description, whose name has the query
    [file] at index 5. *)
Definition pool_with_read_file : list ToolWithServer :=
  [{| tool := mkTool "read_file" None None None []; serverUuid := "server-1" |}].

End RegexScoreNotions.

(** * Notions of the further properties *)

(** The key under which the service caches the provider of a method and a
    config: the template literal of [getProvider], whose [config || {}]
    takes the empty object for a config that is absent or falsy. *)
Definition providerCacheKey (JSON_stringify : json → string)
    (method : SearchMethod) (config : option json) : string :=
  SearchMethod_name method +:+ ":" +:+
  JSON_stringify (if SearchProviderFactory.truthy config
                  then default (JObj []) config
                  else JObj []).

(** A registry of two provider classes without [initialize], whose
    providers answer every search with no result. *)
Definition example_registry : SearchProviderFactory.Registry :=
  SearchProviderFactory.registered
    {| SearchProviderFactory.new_provider :=
         {| provider_name := "REGEX"; provider_search := λ _ _, Normal [] |};
       SearchProviderFactory.provider_initialize := None |}
    {| SearchProviderFactory.new_provider :=
         {| provider_name := "BM25"; provider_search := λ _ _, Normal [] |};
       SearchProviderFactory.provider_initialize := None |}.

(** A provider that answers every search with no result. *)
Definition silent_provider (name : string) : ToolSearchProvider :=
  {| provider_name := name; provider_search := λ _ _, Normal [] |}.

(** A provider that answers with the first tools of the pool, as many as
    the query allows. *)
Definition first_tools_provider : ToolSearchProvider :=
  {| provider_name := "REGEX";
     provider_search := λ q tools,
       Normal (no_query_result <$>
                 slice0 tools (or_number (SearchInterface.maxResults q) 5)) |}.

(** Every character of a string passes a test. *)
Fixpoint string_forall (P : ascii → bool) (s : string) : bool :=
  match s with
  | EmptyString => true
  | String c rest => P c && string_forall P rest
  end.

(** The characters of a BM25 token: [a-z0-9_]. *)
Definition isTokenChar (c : ascii) : bool :=
  let n := nat_of_ascii c in
  in_range 97 122 n || isDigit c || (n =? 95)%nat.

(** How often a term occurs in a list of tokens. *)
Definition occurrences (term : string) (tokens : list string) : nat :=
  List.length (List.filter (String.eqb term) tokens).

(** The error AJV's failure to compile a schema is reported as. *)
Definition schema_error (err : string) : ToolExecuteTool.ErrorObject :=
  {| ToolExecuteTool.instancePath := "";
     ToolExecuteTool.keyword := "schema";
     ToolExecuteTool.message := Some ("Invalid tool schema: " +:+ err) |}.

(** A validator that accepts objects only. *)
Definition accept_objects (schema : json)
    : completion (json → bool * option (list ToolExecuteTool.ErrorObject)) :=
  Normal (λ args, (if args is JObj _ then true else false, None)).

(** A store of search configs that rejects every call. *)
Definition unreachable_store : ToolSearchConfigImpl.Repository :=
  {| ToolSearchConfigImpl.repository_findByNamespaceUuid :=
       λ _, Throw "connection refused";
     ToolSearchConfigImpl.repository_upsert :=
       λ _, Throw "connection refused" |}.

(** * Properties *)

(** ** Strings *)

Lemma append_assoc (a b c : string) : (a +:+ b) +:+ c = a +:+ (b +:+ c).
Proof.
  induction a as [|x a IH]; [done|].
  change (String x ((a +:+ b) +:+ c) = String x (a +:+ (b +:+ c))).
  by rewrite IH.
Qed.

(** ** Numbers *)

Section DoubleProperties.
Import Double.
Open Scope Q_scope.

Lemma pow2_pos (k : Z) : 0 < 2 ^ k.
Proof. apply Qpower_0_lt. reflexivity. Qed.

Lemma pow2_plus (a b : Z) : 2 ^ (a + b) == 2 ^ a * 2 ^ b.
Proof. apply Qpower_plus. discriminate. Qed.

Lemma pow2_le (a b : Z) : (a <= b)%Z → 2 ^ a <= 2 ^ b.
Proof. intros Hab. apply Qpower_le_compat_l; [exact Hab | discriminate]. Qed.

Lemma pow2_lt_inv (a b : Z) : 2 ^ a < 2 ^ b → (a < b)%Z.
Proof. intros Hab. apply (Qpower_lt_compat_l_inv 2); [exact Hab | reflexivity]. Qed.

Lemma pow2_of_Z (n : Z) : (0 <= n)%Z → inject_Z (2 ^ n) == 2 ^ n.
Proof. intros Hn. by rewrite Zpower_Qpower. Qed.

Lemma log2_bounds (n : Z) :
  (0 < n)%Z →
  2 ^ Z.log2 n <= inject_Z n ∧ inject_Z n < 2 ^ (Z.log2 n + 1).
Proof.
  intros Hn. destruct (Z.log2_spec n Hn) as [Hlo Hhi].
  pose proof (Z.log2_nonneg n) as Hnonneg.
  rewrite <- !pow2_of_Z by lia. rewrite <- Zle_Qle, <- Zlt_Qlt.
  split; [exact Hlo|]. by rewrite <- Z.add_1_r in Hhi.
Qed.

Lemma floor_log2_spec (x : Q) :
  0 < x → 2 ^ floor_log2 x <= x ∧ x < 2 ^ (floor_log2 x + 1).
Proof.
  intros Hx. unfold floor_log2.
  destruct x as [n d]. simpl Qnum. simpl Qden.
  assert (0 < n)%Z as Hn by (unfold Qlt in Hx; simpl in Hx; lia).
  destruct (log2_bounds n Hn) as [Hnlo Hnhi].
  destruct (log2_bounds (Zpos d) ltac:(lia)) as [Hdlo Hdhi].
  set (ln := Z.log2 n) in *. set (ld := Z.log2 (Zpos d)) in *.
  assert ((n # d) * inject_Z (Zpos d) == inject_Z n) as Hnd.
  { unfold Qeq. simpl. rewrite Pos.mul_1_r. ring. }
  assert (0 < inject_Z (Zpos d)) as Hdpos by (unfold Qlt; simpl; lia).
  assert (2 ^ (ln - ld + 1) * 2 ^ ld == 2 ^ (ln + 1)) as Hup.
  { rewrite <- pow2_plus. by replace (ln - ld + 1 + ld)%Z with (ln + 1)%Z by ring. }
  assert (2 ^ (ln - ld - 1) * 2 ^ (ld + 1) == 2 ^ ln) as Hdown.
  { rewrite <- pow2_plus. by replace (ln - ld - 1 + (ld + 1))%Z with ln by ring. }
  pose proof (pow2_pos (ln - ld + 1)) as Hp1.
  pose proof (pow2_pos (ln - ld - 1)) as Hp2.
  destruct (Qle_bool (2 ^ (ln - ld)) (n # d)) eqn:Hle.
  - apply Qle_bool_iff in Hle. split; [exact Hle|].
    apply Qnot_le_lt. intros Hge.
    assert (2 ^ (ln - ld + 1) * 2 ^ ld <= (n # d) * inject_Z (Zpos d)) as Hc.
    { apply Qle_trans with (2 ^ (ln - ld + 1) * inject_Z (Zpos d)).
      - apply Qmult_le_l; [exact Hp1 | exact Hdlo].
      - apply Qmult_le_r; [exact Hdpos | exact Hge]. }
    rewrite Hup, Hnd in Hc. lra.
  - assert (n # d < 2 ^ (ln - ld)) as Hlt.
    { apply Qnot_le_lt. intros Hge. apply Qle_bool_iff in Hge. congruence. }
    replace (ln - ld - 1 + 1)%Z with (ln - ld)%Z by ring.
    split; [|exact Hlt].
    apply Qnot_lt_le. intros Hbelow.
    assert ((n # d) * inject_Z (Zpos d) < 2 ^ (ln - ld - 1) * 2 ^ (ld + 1)) as Hc.
    { apply Qlt_trans with (2 ^ (ln - ld - 1) * inject_Z (Zpos d)).
      - apply Qmult_lt_r; [exact Hdpos | exact Hbelow].
      - apply Qmult_lt_l; [exact Hp2 | exact Hdhi]. }
    rewrite Hdown, Hnd in Hc. lra.
Qed.

Lemma floor_log2_mono (x y : Q) :
  0 < x → x <= y → (floor_log2 x <= floor_log2 y)%Z.
Proof.
  intros Hx Hxy.
  destruct (floor_log2_spec x Hx) as [Hxlo _].
  destruct (floor_log2_spec y ltac:(lra)) as [_ Hyhi].
  assert (2 ^ floor_log2 x < 2 ^ (floor_log2 y + 1)) as Hlt by lra.
  apply pow2_lt_inv in Hlt. lia.
Qed.

Lemma round_half_even_floor (s : Q) :
  (Qfloor s <= round_half_even s)%Z ∧ (round_half_even s <= Qfloor s + 1)%Z.
Proof.
  unfold round_half_even.
  destruct (s - inject_Z (Qfloor s) ?= 1 # 2); [destruct (Z.even _)|..]; lia.
Qed.

Lemma round_half_even_lower (s : Q) (n : Z) :
  inject_Z n <= s → (n <= round_half_even s)%Z.
Proof.
  intros Hn. apply Qfloor_resp_le in Hn. rewrite Qfloor_Z in Hn.
  pose proof (round_half_even_floor s). lia.
Qed.

Lemma round_half_even_upper (s : Q) (n : Z) :
  s <= inject_Z n → (round_half_even s <= n)%Z.
Proof.
  intros Hn.
  destruct (Z.eq_dec (Qfloor s) n) as [Heq|Hne].
  - unfold round_half_even. rewrite Heq.
    assert ((s - inject_Z n ?= 1 # 2) = Lt) as ->; [|lia].
    apply (proj1 (Qlt_alt _ _)). pose proof (Qfloor_le s) as Hfloor.
    rewrite Heq in Hfloor. lra.
  - pose proof (Qfloor_resp_le _ _ Hn) as Hfloor. rewrite Qfloor_Z in Hfloor.
    pose proof (round_half_even_floor s). lia.
Qed.

Lemma round_half_even_mono (s t : Q) :
  s <= t → (round_half_even s <= round_half_even t)%Z.
Proof.
  intros Hst. pose proof (Qfloor_resp_le _ _ Hst) as Hfloor.
  destruct (Z.eq_dec (Qfloor s) (Qfloor t)) as [Heq|Hne].
  - unfold round_half_even. rewrite <- Heq.
    destruct (s - inject_Z (Qfloor s) ?= 1 # 2) eqn:Hs;
      destruct (t - inject_Z (Qfloor s) ?= 1 # 2) eqn:Ht;
      try (destruct (Z.even (Qfloor s))); try lia;
      try apply (proj2 (Qeq_alt _ _)) in Hs; try apply (proj2 (Qlt_alt _ _)) in Hs;
      try apply (proj2 (Qgt_alt _ _)) in Hs;
      try apply (proj2 (Qeq_alt _ _)) in Ht; try apply (proj2 (Qlt_alt _ _)) in Ht;
      try apply (proj2 (Qgt_alt _ _)) in Ht;
      lra.
  - pose proof (round_half_even_floor s). pose proof (round_half_even_floor t).
    lia.
Qed.

Lemma round_positive_mono (x y : Q) :
  0 < x → x <= y → round_positive x <= round_positive y.
Proof.
  intros Hx Hxy. unfold round_positive.
  pose proof (floor_log2_mono x y Hx Hxy) as He.
  destruct (floor_log2_spec x Hx) as [Hxlo Hxhi].
  destruct (floor_log2_spec y ltac:(lra)) as [Hylo Hyhi].
  set (ex := floor_log2 x) in *. set (ey := floor_log2 y) in *.
  destruct (Z.eq_dec ex ey) as [Heq|Hne].
  - rewrite <- Heq. apply Qmult_le_r; [apply pow2_pos|].
    rewrite <- Zle_Qle. apply round_half_even_mono.
    apply Qmult_le_r; [apply pow2_pos | exact Hxy].
  - apply Qle_trans with (2 ^ ey).
    + apply Qle_trans with (2 ^ (ex + 1)); [|apply pow2_le; lia].
      assert (2 ^ (ex + 1) == inject_Z (2 ^ 53) * 2 ^ (ex - 52)) as ->.
      { rewrite pow2_of_Z by lia. rewrite <- pow2_plus.
        by replace (53 + (ex - 52))%Z with (ex + 1)%Z by ring. }
      apply Qmult_le_r; [apply pow2_pos|]. rewrite <- Zle_Qle.
      apply round_half_even_upper.
      rewrite pow2_of_Z by lia.
      assert (2 ^ 53 == 2 ^ (ex + 1) * 2 ^ (52 - ex)) as ->.
      { rewrite <- pow2_plus. by replace (ex + 1 + (52 - ex))%Z with 53%Z by ring. }
      apply Qmult_le_r; [apply pow2_pos | lra].
    + assert (2 ^ ey == inject_Z (2 ^ 52) * 2 ^ (ey - 52)) as ->.
      { rewrite pow2_of_Z by lia. rewrite <- pow2_plus.
        by replace (52 + (ey - 52))%Z with ey by ring. }
      apply Qmult_le_r; [apply pow2_pos|]. rewrite <- Zle_Qle.
      apply round_half_even_lower.
      rewrite pow2_of_Z by lia.
      assert (2 ^ 52 == 2 ^ ey * 2 ^ (52 - ey)) as ->.
      { rewrite <- pow2_plus. by replace (ey + (52 - ey))%Z with 52%Z by ring. }
      apply Qmult_le_r; [apply pow2_pos | exact Hylo].
Qed.

Lemma round_positive_nonneg (x : Q) : 0 < x → 0 <= round_positive x.
Proof.
  intros Hx. unfold round_positive.
  apply Qmult_le_0_compat; [|apply Qlt_le_weak, pow2_pos].
  change 0 with (inject_Z 0). rewrite <- Zle_Qle.
  apply round_half_even_lower. simpl.
  apply Qmult_le_0_compat; [lra | apply Qlt_le_weak, pow2_pos].
Qed.

(** [round] respects the equality of rationals. *)
Lemma round_proper (x y : Q) : x == y → round x = round y.
Proof. intros Hxy. unfold round. by rewrite (Qred_complete x y Hxy). Qed.

Lemma round_cases (x : Q) :
  (x == 0 ∧ round x = 0)
  ∨ (0 < x ∧ round x == round_positive (Qred x))
  ∨ (x < 0 ∧ round x == - round_positive (- Qred x)).
Proof.
  unfold round. pose proof (Qred_correct x) as Hred.
  destruct (Qred x) as [n d] eqn:Hx. simpl Qnum.
  destruct n as [|p|p].
  - left. split; [|done]. rewrite <- Hred. reflexivity.
  - right. left. split; [rewrite <- Hred; reflexivity | apply Qred_correct].
  - right. right. split; [rewrite <- Hred; reflexivity | apply Qred_correct].
Qed.

(** Rounding keeps the order of numbers that are not negative. *)
Lemma round_mono (x y : Q) : 0 <= x → x <= y → round x <= round y.
Proof.
  intros Hx Hxy.
  destruct (round_cases x) as [[Hx0 ->] | [[Hxpos ->] | [Hxneg _]]]; [| |lra].
  - destruct (round_cases y) as [[Hy0 ->] | [[Hypos ->] | [Hyneg _]]];
      [lra | | lra].
    apply round_positive_nonneg. by rewrite Qred_correct.
  - destruct (round_cases y) as [[Hy0 _] | [[Hypos ->] | [Hyneg _]]];
      [lra | | lra].
    apply round_positive_mono; rewrite !Qred_correct; done.
Qed.

Lemma round_nonneg (x : Q) : 0 <= x → 0 <= round x.
Proof. intros Hx. apply (round_mono 0 x); [lra | exact Hx]. Qed.

Lemma add_nonneg (x y : Q) : 0 <= x → 0 <= y → 0 <= add x y.
Proof. intros Hx Hy. apply round_nonneg. lra. Qed.

Lemma add_mono (x x' y y' : Q) :
  0 <= x → x <= x' → 0 <= y → y <= y' → add x y <= add x' y'.
Proof. intros Hx Hxx Hy Hyy. apply round_mono; lra. Qed.

Lemma mul_nonneg (x y : Q) : 0 <= x → 0 <= y → 0 <= mul x y.
Proof. intros Hx Hy. apply round_nonneg. by apply Qmult_le_0_compat. Qed.

Lemma mul_comm (x y : Q) : mul x y = mul y x.
Proof. apply round_proper. ring. Qed.

Lemma of_nat_nonneg (n : nat) : 0 <= of_nat n.
Proof. unfold of_nat, Qle. simpl. lia. Qed.

End DoubleProperties.

(** ** The config resolver *)

Section ResolverProperties.
Import DeferLoading.

(** [deferLoadingEnabled] follows the endpoint override, else the
    namespace default. *)
Lemma resolve_deferLoadingEnabled namespace endpoint overrides :
  deferLoadingEnabled (resolveDeferLoadingConfig namespace endpoint overrides) =
  match override_defer_loading endpoint with
  | Some ENABLED => true
  | Some DISABLED => false
  | Some INHERIT | None => default_defer_loading namespace
  end.
Proof. by destruct endpoint as [[[]|] ?]. Qed.

(** On the values [EndpointConfig] declares, and on [undefined],
    [searchMethod] is the override unless it is [INHERIT] or unset. *)
Lemma resolve_searchMethod_declared namespace endpoint overrides :
  override_search_method endpoint ≠ SM_null →
  searchMethod (resolveDeferLoadingConfig namespace endpoint overrides) =
  match override_search_method endpoint with
  | SM m => SM m
  | _ => SM (default_search_method namespace)
  end.
Proof. by destruct endpoint as [? []]. Qed.

(** An absent endpoint resolves to the namespace defaults. *)
Lemma resolve_without_endpoint namespace overrides :
  resolveDeferLoadingConfig namespace
    {| override_defer_loading := Some INHERIT;
       override_search_method := SM_INHERIT |} overrides =
  {| deferLoadingEnabled := default_defer_loading namespace;
     searchMethod := SM (default_search_method namespace);
     toolOverrides := overrides |}.
Proof. reflexivity. Qed.

(** C3 (the code at the failing input): for an endpoint row whose
    [override_search_method] is unset ([NULL] in the store), the resolver
    does not fall back to the namespace default [BM25]: the resolved
    [searchMethod] is [null], while [deferLoadingEnabled] is inherited. *)
Theorem unset_search_method_override_resolves_to_null :
  let '(resolved, _, _) :=
    getResolvedConfig store_with_unset_override "ns-1" "ep-1"
                      {| configCache := ∅ |} in
  (searchMethod resolved = SM_null
   ∧ searchMethod resolved ≠ SM BM25
   ∧ deferLoadingEnabled resolved = true).
Proof. vm_compute. repeat split; discriminate. Qed.

End ResolverProperties.

(** ** Flag application *)

Section FlagProperties.
Import DeferLoading.
Implicit Types (h : Heap) (tool : ref) (o : Tool)
               (config : ResolvedDeferLoadingConfig).

Lemma new_object_fresh o h :
  let '(r, h') := new_object o h in
  ((r ∉ dom h) ∧ h' !! r = Some o ∧ h ⊆ h').
Proof.
  unfold new_object. pose proof (is_fresh (dom h)) as Hfresh.
  split_and!; [done | by rewrite lookup_insert_eq |].
  apply insert_subseteq. by apply not_elem_of_dom.
Qed.

(** One call of the callback: the store only grows, and the result is the
    argument or a clone. *)
Lemma applyDeferLoading_tool_spec config tool h o :
  h !! tool = Some o →
  let '(r, h') := applyDeferLoading_tool config tool h in
  (h ⊆ h'
   ∧ h' !! r = Some (flagged config o)
   ∧ if flags config o then is_clone h h' r o else r = tool ∧ h' = h).
Proof.
  intros Ho. unfold applyDeferLoading_tool, flagged, flags, is_clone.
  rewrite Ho.
  destruct (String.eqb (name o) TOOL_SEARCH_TOOL_NAME) eqn:Hname; [done|].
  pose proof (new_object_fresh (spread_defer_loading o) h) as Hnew.
  simpl.
  destruct (plain_object_get (toolOverrides config) (name o)) as [[]| |];
    [|done|done|].
  - destruct (new_object _ h) as [r h']. by destruct Hnew as (? & ? & ?).
  - destruct (deferLoadingEnabled config) eqn:Hen; [|done].
    destruct (new_object _ h) as [r h']. by destruct Hnew as (? & ? & ?).
Qed.

(** The store only grows, also for a reference outside it. *)
Lemma applyDeferLoading_tool_grows config tool h :
  h ⊆ (applyDeferLoading_tool config tool h).2.
Proof.
  destruct (h !! tool) as [o|] eqn:Ho.
  - pose proof (applyDeferLoading_tool_spec config tool h o Ho) as Hs.
    destruct (applyDeferLoading_tool config tool h). by destruct Hs.
  - unfold applyDeferLoading_tool. by rewrite Ho.
Qed.

(** The whole list: the store only grows and the output denotes the
    flagged inputs. *)
Lemma applyDeferLoading_deref tools config h :
  Forall (λ r, is_Some (h !! r)) tools →
  let '(out, h') := applyDeferLoading tools config h in
  (h ⊆ h'
   ∧ deref h' out = fmap (M:=option) (flagged config) <$> deref h tools).
Proof.
  revert h. induction tools as [|tool rest IH]; intros h Hwf; simpl; [done|].
  apply Forall_cons in Hwf as [[o Ho] Hrest].
  pose proof (applyDeferLoading_tool_spec config tool h o Ho) as Hstep.
  destruct (applyDeferLoading_tool config tool h) as [r h1].
  destruct Hstep as (Hsub1 & Hr & _).
  assert (Forall (λ r, is_Some (h1 !! r)) rest) as Hrest1.
  { eapply Forall_impl; [done|]. intros x [ox Hx].
    exists ox. by eapply lookup_weaken. }
  specialize (IH h1 Hrest1).
  destruct (applyDeferLoading rest config h1) as [out h2].
  destruct IH as [Hsub2 IH]. split; [by etrans|].
  unfold deref in *. rewrite !fmap_cons. f_equal.
  - rewrite Ho. simpl. by eapply lookup_weaken.
  - rewrite IH. f_equal. apply Forall_fmap_ext_1.
    eapply Forall_impl; [exact Hrest|]. intros x [ox Hox]. simpl.
    rewrite Hox. by eapply lookup_weaken.
Qed.

Lemma applyDeferLoading_length tools config h :
  length (applyDeferLoading tools config h).1 = length tools.
Proof.
  revert h. induction tools as [|tool rest IH]; intros h; simpl; [done|].
  destruct (applyDeferLoading_tool config tool h) as [r h1].
  specialize (IH h1). destruct (applyDeferLoading rest config h1) as [out h2].
  simpl in *. by rewrite IH.
Qed.

(** Where the flag-application step does what is specified.  No object of
    the input store is changed ([h ⊆ h']) and the output has one entry per
    input tool.  For a tool whose name is not a property that plain
    objects inherit, the entry is the input object itself for the search
    tool, for an override [false], and without override when
    [deferLoadingEnabled] is off; it is a clone with [defer_loading = true]
    for an override [true], and without override when
    [deferLoadingEnabled] is on. *)
Lemma applyDeferLoading_on_own_names tools config h out h' :
  applyDeferLoading tools config h = (out, h') →
  h ⊆ h'
  ∧ length out = length tools
  ∧ ∀ (i : nat) tool o,
      tools !! i = Some tool → h !! tool = Some o →
      name o ∉ Object_prototype_properties →
      ∃ r, out !! i = Some r
        ∧ (name o = TOOL_SEARCH_TOOL_NAME → r = tool)
        ∧ (name o ≠ TOOL_SEARCH_TOOL_NAME →
           match (toolOverrides config !! name o : option bool) with
           | Some false => r = tool
           | Some true => is_clone h h' r o
           | None => if deferLoadingEnabled config
                     then is_clone h h' r o
                     else r = tool
           end).
Proof.
  revert h out h'. induction tools as [|tool0 rest IH]; intros h out h'; simpl.
  { intros [= <- <-]. split_and!; [done..|]. by intros i ? ? [=]. }
  pose proof (applyDeferLoading_tool_grows config tool0 h) as Hsub1.
  destruct (applyDeferLoading_tool config tool0 h) as [r0 h1] eqn:Hstep.
  destruct (applyDeferLoading rest config h1) as [out1 h2] eqn:Hrest.
  intros [= <- <-]. destruct (IH _ _ _ Hrest) as (Hsub2 & Hlen & Hidx).
  simpl in Hsub1.
  assert (∀ r o, is_clone h1 h2 r o → is_clone h h2 r o) as Hclone2.
  { intros r o [Hr ?]. split; [|done]. intros Hin. apply Hr.
    apply elem_of_dom. apply elem_of_dom in Hin as [x Hx].
    exists x. by eapply lookup_weaken. }
  split_and!; [by etrans | simpl; by rewrite Hlen |].
  intros [|i] tool o Htool Ho Hown; simpl in *.
  - injection Htool as ->. exists r0. split; [done|].
    pose proof (applyDeferLoading_tool_spec config tool h o Ho) as Hs.
    rewrite Hstep in Hs. destruct Hs as (_ & _ & Hcases).
    assert (is_clone h h1 r0 o → is_clone h h2 r0 o) as Hclone.
    { intros [? ?]. split; [done|]. by eapply lookup_weaken. }
    unfold flags, plain_object_get in Hcases.
    rewrite (bool_decide_eq_false_2 _ Hown) in Hcases. split.
    + intros Hname. apply String.eqb_eq in Hname.
      rewrite Hname in Hcases. by destruct Hcases.
    + intros Hname. apply String.eqb_neq in Hname.
      rewrite Hname in Hcases. simpl in Hcases.
      destruct (toolOverrides config !! name o) as [[]|];
        [by auto | by destruct Hcases |].
      destruct (deferLoadingEnabled config); [by auto | by destruct Hcases].
  - destruct (Hidx i tool o Htool) as (r & Hr & Hsearch & Hother);
      [by eapply lookup_weaken | done |].
    exists r. split; [done|]. split; [done|].
    intros Hname. specialize (Hother Hname).
    destruct (toolOverrides config !! name o) as [[]|]; [by auto | done |].
    destruct (deferLoadingEnabled config); by auto.
Qed.

(** C2 (the code at the failing input): of two tools without per-tool
    override, with defer loading on, the flag-application step clones the
    tool named [destructor] and sets its [defer_loading], and returns the
    tool named [constructor] as it is, without [defer_loading]: the lookup
    [toolOverrides[name]] finds the function that every plain object
    inherits, which is taken for an override that is not [true]. *)
Theorem tool_named_constructor_is_not_flagged :
  toolOverrides config_without_overrides !! "constructor" = None
  ∧ toolOverrides config_without_overrides !! "destructor" = None
  ∧ deferLoadingEnabled config_without_overrides = true
  ∧ ∃ h',
      applyDeferLoading [1; 2]%positive config_without_overrides
        heap_with_inherited_name = ([1; 3]%positive, h')
      ∧ h' !! 1%positive =
          Some (mkTool "constructor" (Some "Build a project") None None [])
      ∧ h' !! 3%positive =
          Some (mkTool "destructor" (Some "Clean a project") None
                       (Some true) []).
Proof.
  split; [done|]. split; [done|]. split; [done|].
  eexists. split; [by vm_compute|]. by vm_compute.
Qed.

Lemma flags_spread config o :
  flags config (spread_defer_loading o) = flags config o.
Proof. reflexivity. Qed.

Lemma flagged_idempotent config o :
  flagged config (flagged config o) = flagged config o.
Proof.
  unfold flagged. destruct (flags config o) eqn:Hf.
  - by rewrite flags_spread, Hf.
  - by rewrite Hf.
Qed.

(** C10: applying the flag-application step to its own output, with the
    same config, gives a list that denotes the same tool objects, field by
    field: flagging again changes nothing. *)
Theorem applyDeferLoading_idempotent tools config h out h1 out2 h2 :
  Forall (λ r, is_Some (h !! r)) tools →
  applyDeferLoading tools config h = (out, h1) →
  applyDeferLoading out config h1 = (out2, h2) →
  length out2 = length out ∧ deref h2 out2 = deref h1 out.
Proof.
  intros Hwf H1 H2.
  pose proof (applyDeferLoading_deref tools config h Hwf) as Hd1.
  rewrite H1 in Hd1. destruct Hd1 as [_ Hd1].
  assert (Forall (λ r, is_Some (h1 !! r)) out) as Hwf1.
  { apply Forall_fmap with (f := λ r, h1 !! r) (P := is_Some).
    fold (deref h1 out). rewrite Hd1. apply Forall_fmap.
    unfold deref. apply Forall_fmap. eapply Forall_impl; [exact Hwf|].
    intros r [o Ho]. simpl. rewrite Ho. by eexists. }
  pose proof (applyDeferLoading_deref out config h1 Hwf1) as Hd2.
  rewrite H2 in Hd2. destruct Hd2 as [_ Hd2].
  split.
  { pose proof (applyDeferLoading_length out config h1) as Hlen.
    by rewrite H2 in Hlen. }
  rewrite Hd2, Hd1. rewrite <- list_fmap_compose.
  apply list_fmap_ext. intros _ [o|] _; simpl; [|done].
  by rewrite flagged_idempotent.
Qed.

Lemma applyDeferLoading_idempotent_witness :
  ∃ out h1 out2 h2,
    Forall (λ r, is_Some (example_heap !! r)) example_tools
    ∧ applyDeferLoading example_tools example_config example_heap = (out, h1)
    ∧ applyDeferLoading out example_config h1 = (out2, h2)
    ∧ length out2 = length out ∧ deref h2 out2 = deref h1 out.
Proof.
  assert (Forall (λ r, is_Some (example_heap !! r)) example_tools) as Hwf.
  { repeat first [apply List.Forall_nil
                 | apply List.Forall_cons; [vm_compute; by eexists|]]. }
  eexists _, _, _, _. split; [exact Hwf|].
  split; [reflexivity|]. split; [reflexivity|].
  exact (applyDeferLoading_idempotent example_tools example_config
           example_heap _ _ _ _ Hwf eq_refl eq_refl).
Defined.

End FlagProperties.

(** ** The fail-safe config and the cache *)

Section CacheProperties.
Import DeferLoading.

(** The config returned when the store fails has three properties; it has
    no [toolVisibility], [maxResults] or [providerConfig]. *)
Lemma fail_safe_config_has_three_properties :
  let '(result, _, _) :=
    getResolvedConfig failing_store "ns-1" "ep-1" {| configCache := ∅ |} in
  (config_object result ≠ specified_fail_safe_object
   ∧ obj_get (config_object result) "toolVisibility" = None
   ∧ obj_get (config_object result) "maxResults" = None
   ∧ obj_get (config_object result) "providerConfig" = None).
Proof. vm_compute. by split_and!. Qed.

Lemma fetchAndCacheConfig_fails repos namespaceUuid endpointUuid mw :
  fetch_fails repos namespaceUuid endpointUuid →
  ∃ trace,
    fetchAndCacheConfig repos namespaceUuid endpointUuid mw =
    (getFailSafeConfig, mw, FindNamespace namespaceUuid :: trace).
Proof.
  unfold fetchAndCacheConfig, failSafe, mbind, M_bind, bind, await, emit, mret,
    M_ret, ret.
  intros [e He | He | namespace e Hn He | namespace endpoint e Hn Hep He].
  - rewrite He. by eexists.
  - rewrite He. by eexists.
  - rewrite Hn, He. by eexists.
  - rewrite Hn, Hep, He. by eexists.
Qed.

(** A call that misses the cache starts with a read of the namespace. *)
Lemma getResolvedConfig_miss_fetches repos namespaceUuid endpointUuid mw :
  configCache mw !! endpointUuid = None →
  ∃ result mw' trace,
    getResolvedConfig repos namespaceUuid endpointUuid mw =
    (result, mw', FindNamespace namespaceUuid :: trace).
Proof.
  intros Hmiss.
  unfold getResolvedConfig, mbind, M_bind, bind, cache_get. rewrite Hmiss.
  unfold fetchAndCacheConfig, failSafe, mbind, M_bind, bind, await, emit, mret,
    M_ret, ret, cache_set.
  destruct (namespacesRepository_findByUuid repos namespaceUuid)
    as [[namespace|]|]; [|by eexists _, _, _..].
  destruct (endpointsRepository_findByUuid repos endpointUuid)
    as [endpoint|]; [|by eexists _, _, _].
  destruct (findToolDeferLoadingOverrides repos namespaceUuid);
    by eexists _, _, _.
Qed.

(** A call that hits the cache reads nothing. *)
Lemma getResolvedConfig_hit repos namespaceUuid endpointUuid mw cached :
  configCache mw !! endpointUuid = Some cached →
  getResolvedConfig repos namespaceUuid endpointUuid mw = (cached, mw, []).
Proof.
  intros Hhit. unfold getResolvedConfig, mbind, M_bind, bind, cache_get.
  by rewrite Hhit.
Qed.

(** When the store answers, a call that misses the cache resolves the
    config and stores it under the endpoint. *)
Lemma getResolvedConfig_miss_resolves repos namespaceUuid endpointUuid mw
    namespace endpoint overrides :
  configCache mw !! endpointUuid = None →
  namespacesRepository_findByUuid repos namespaceUuid = Normal (Some namespace) →
  endpointsRepository_findByUuid repos endpointUuid = Normal endpoint →
  findToolDeferLoadingOverrides repos namespaceUuid = Normal overrides →
  ∃ resolved,
    getResolvedConfig repos namespaceUuid endpointUuid mw =
      (resolved,
       {| configCache := <[endpointUuid := resolved]> (configCache mw) |},
       [FindNamespace namespaceUuid; FindEndpoint endpointUuid;
        FindOverrides namespaceUuid])
    ∧ toolOverrides resolved = overrides.
Proof.
  intros Hmiss Hn Hep Hov.
  unfold getResolvedConfig, mbind, M_bind, bind, cache_get. rewrite Hmiss.
  unfold fetchAndCacheConfig, mbind, M_bind, bind, await, mret, M_ret, ret,
    cache_set.
  rewrite Hn, Hep, Hov. by eexists.
Qed.

(** C9, as the code has it: when the fetch fails or the namespace is
    absent, a call that misses the cache returns the fail-safe config
    [{deferLoadingEnabled = false, searchMethod = NONE, toolOverrides = {}}]
    and leaves the middleware as it was, the cache included; a later call
    for the same endpoint reads the store again. *)
Theorem fail_safe_is_not_cached repos namespaceUuid endpointUuid mw :
  configCache mw !! endpointUuid = None →
  fetch_fails repos namespaceUuid endpointUuid →
  ∃ trace mw1,
    getResolvedConfig repos namespaceUuid endpointUuid mw =
      (getFailSafeConfig, mw1, trace)
    ∧ config_object getFailSafeConfig =
        [("deferLoadingEnabled", JBool false);
         ("searchMethod", JStr "NONE");
         ("toolOverrides", JObj [])]
    ∧ mw1 = mw
    ∧ configCache mw1 !! endpointUuid = None
    ∧ ∀ repos' namespaceUuid',
        ∃ result mw2 trace',
          getResolvedConfig repos' namespaceUuid' endpointUuid mw1 =
          (result, mw2, FindNamespace namespaceUuid' :: trace').
Proof.
  intros Hmiss Hfails.
  destruct (fetchAndCacheConfig_fails repos namespaceUuid endpointUuid mw Hfails)
    as [trace Hfetch].
  exists (FindNamespace namespaceUuid :: trace), mw. split_and!; [|done..|].
  - unfold getResolvedConfig, mbind, M_bind, bind, cache_get. rewrite Hmiss.
    by rewrite Hfetch.
  - intros repos' namespaceUuid'. by apply getResolvedConfig_miss_fetches.
Qed.

Lemma fail_safe_is_not_cached_witness :
  ∃ trace mw1,
    getResolvedConfig failing_store "ns-1" "ep-1" {| configCache := ∅ |} =
      (getFailSafeConfig, mw1, trace)
    ∧ mw1 = {| configCache := ∅ |}
    ∧ ∃ result mw2 trace',
        getResolvedConfig store_with_unset_override "ns-1" "ep-1" mw1 =
        (result, mw2, FindNamespace "ns-1" :: trace').
Proof.
  destruct (fail_safe_is_not_cached failing_store "ns-1" "ep-1"
              {| configCache := ∅ |})
    as (trace & mw1 & Hcall & _ & Hmw & _ & Hlater).
  - reflexivity.
  - by eapply namespace_lookup_rejects.
  - exists trace, mw1. split; [done|]. split; [done|]. apply Hlater.
Defined.

End CacheProperties.

(** ** The execute tool *)

Section ExecuteProperties.
Import ToolExecuteTool.

(** C4: a call whose [tool_name] is the name of the execute tool or of
    the search tool returns an error result whose text contains
    [Cannot execute builtin tool "<name>"]; the trace is empty: the pool is
    not searched, nothing is validated and the proxy function is not
    called. *)
Theorem builtin_tools_are_refused ajv_compile JSON_stringify args
    availableTools proxyFunction :
  tool_name args = TOOL_EXECUTE_TOOL_NAME
  ∨ tool_name args = TOOL_SEARCH_TOOL_NAME →
  ∃ text,
    executeToolExecution ajv_compile JSON_stringify args availableTools
                         proxyFunction =
      ({| content := [TextContent text]; isError := Some true |}, [])
    ∧ includes text
        ("Cannot execute builtin tool " +:+ dquote +:+ tool_name args +:+ dquote).
Proof.
  intros Hname. unfold executeToolExecution.
  assert (String.eqb (tool_name args) TOOL_EXECUTE_TOOL_NAME
          || String.eqb (tool_name args) TOOL_SEARCH_TOOL_NAME = true) as ->.
  { apply orb_true_iff. by rewrite !String.eqb_eq. }
  eexists. split; [reflexivity|].
  exists "Error: ", " via metamcp_execute_tool".
  rewrite !append_assoc. reflexivity.
Qed.

Lemma builtin_tools_are_refused_witness :
  ∃ text,
    executeToolExecution (λ _, Throw "unused") (λ _, "")
      {| tool_name := "metamcp_execute_tool"; arguments := JObj [] |}
      [] (λ _ _, Throw "unused") =
      ({| content := [TextContent text]; isError := Some true |}, [])
    ∧ includes text
        ("Cannot execute builtin tool " +:+ dquote +:+ "metamcp_execute_tool"
         +:+ dquote).
Proof.
  apply (builtin_tools_are_refused (λ _, Throw "unused") (λ _, "")
           {| tool_name := "metamcp_execute_tool"; arguments := JObj [] |}).
  left. reflexivity.
Defined.

End ExecuteProperties.

(** ** The service with search method NONE *)

Section ServiceProperties.
Import ToolSearchService.

(** C1, as the code has it: with search method [NONE] the service
    returns one result per available tool, in the order of the pool, each
    with score 0.5 and the reason [Search disabled (method: NONE)]; the
    provider cache is not touched.  The list is as long as the pool:
    [maxResults] is not applied. *)
Theorem search_none_returns_every_tool
    create stringify query availableTools config providerCache :
  searchMethod config = NONE →
  ∃ results,
    search create stringify query availableTools config providerCache =
      (Normal results, providerCache)
    ∧ length results = length availableTools
    ∧ ∀ (i : nat) t,
        availableTools !! i = Some t →
        ∃ r, results !! i = Some r
          ∧ result_tool r = tool t
          ∧ result_serverUuid r = serverUuid t
          ∧ score r = 0.5%Q
          ∧ matchReason r = "Search disabled (method: NONE)".
Proof.
  intros Hnone. unfold search. rewrite Hnone.
  eexists. split; [reflexivity|]. split; [by rewrite length_fmap|].
  intros i t Ht. exists (search_disabled_result t).
  split; [|done]. by rewrite list_lookup_fmap, Ht.
Qed.

Lemma search_none_returns_every_tool_witness :
  ∃ results,
    search (λ _ _, Throw "unused") (λ _, "") (example_query "file" None)
      example_pool
      {| searchMethod := NONE; maxResults := 5; providerConfig := None |} ∅ =
      (Normal results, ∅)
    ∧ length results = 3%nat.
Proof.
  destruct (search_none_returns_every_tool (λ _ _, Throw "unused") (λ _, "")
              (example_query "file" None) example_pool
              {| searchMethod := NONE; maxResults := 5; providerConfig := None |}
              ∅ eq_refl) as (results & Hcall & Hlen & _).
  by exists results.
Defined.

(** With [maxResults = 2] and a pool of three tools, the method [NONE]
    returns three results. *)
Lemma search_none_exceeds_maxResults :
  ∃ results,
    search (λ _ _, Throw "unused") (λ _, "") (example_query "file" None)
      example_pool
      {| searchMethod := NONE; maxResults := 2; providerConfig := None |} ∅ =
      (Normal results, ∅)
    ∧ ¬ (Z.of_nat (length results) ≤ 2)%Z.
Proof. eexists. split; [reflexivity|]. simpl. lia. Qed.

End ServiceProperties.

(** ** Tokenization *)

Section TokenizeProperties.
Import BM25SearchProvider.

(** C5 (the code at the failing input): [\W] does not match an
    underscore, so [file-system_test] gives the tokens [file] and
    [system_test]; splitting outside [A-Za-z0-9] gives [file], [system] and
    [test]. *)
Theorem tokenize_keeps_underscores :
  tokenize "file-system_test" = ["file"; "system_test"]
  ∧ tokenize_as_specified "file-system_test" = ["file"; "system"; "test"].
Proof. by vm_compute. Qed.

(** A public tool name is one token for the index, so a query for [read]
    or [file] does not match the name [filesystem__read_file]. *)
Example tokenize_public_tool_name :
  tokenize "filesystem__read_file" = ["filesystem__read_file"].
Proof. by vm_compute. Qed.

(** The two tokenizations differ on underscores only. *)
Lemma toLowerCase_char_underscore c :
  (nat_of_ascii (toLowerCase_char c) =? 95)%nat = (nat_of_ascii c =? 95)%nat.
Proof. destruct c as [[] [] [] [] [] [] [] []]; by vm_compute. Qed.

Lemma has_underscore_toLowerCase s :
  has_underscore (toLowerCase s) = has_underscore s.
Proof.
  induction s as [|c s IH]; [done|]. simpl.
  by rewrite toLowerCase_char_underscore, IH.
Qed.

Lemma isNonWordChar_alphanumeric c :
  (nat_of_ascii c =? 95)%nat = false →
  isNonWordChar c = isNonAlphanumeric c.
Proof.
  intros Hc. unfold isNonWordChar, isWordChar, isNonAlphanumeric.
  rewrite Hc. by rewrite orb_false_r.
Qed.

Lemma split_runs_from_no_underscore s piece in_run :
  has_underscore s = false →
  split_runs_from isNonWordChar s piece in_run =
  split_runs_from isNonAlphanumeric s piece in_run.
Proof.
  revert piece in_run. induction s as [|c s IH]; intros piece in_run; [done|].
  simpl. intros [Hc Hs]%orb_false_iff.
  rewrite (isNonWordChar_alphanumeric c Hc).
  destruct (isNonAlphanumeric c), in_run; by rewrite ?IH.
Qed.

Lemma tokenize_without_underscore text :
  has_underscore text = false →
  tokenize text = tokenize_as_specified text.
Proof.
  intros Hno. unfold tokenize, tokenize_as_specified, split_runs.
  rewrite split_runs_from_no_underscore; [done|].
  by rewrite has_underscore_toLowerCase.
Qed.

End TokenizeProperties.

(** ** Validation of the upsert input *)

Section UpsertProperties.
Import ToolSearchZod.

(** The request names a [k1] outside [0,3], [BM25ConfigSchema] rejects its
    [providerConfig], and the upsert procedure accepts it and calls the
    implementation. *)
Lemma upsert_accepts_k1_out_of_range :
  bm25_out_of_range request_with_k1_out_of_range = true
  ∧ BM25ConfigSchema (JObj [("k1", JNum 10); ("b", JNum 0.75)]) = false
  ∧ router_upsert (λ parsed, parsed) request_with_k1_out_of_range =
    Returned {| namespaceUuid := "123e4567-e89b-42d3-a456-426614174000";
                maxResults := 5;
                providerConfig := Some (JObj [("k1", JNum 10); ("b", JNum 0.75)]) |}.
Proof. by vm_compute. Qed.

(** C6, as the code has it: the upsert procedure calls the implementation
    exactly when the input is an object whose [namespaceUuid] is a UUID
    string, whose [maxResults] is an integer in [1,20], and whose
    [providerConfig] is absent, [null] or an object; what the object
    holds ([k1], [b] or anything else) is not examined. *)
Theorem upsert_input_validation {A} (upsert : ToolSearchConfigUpsertInput → A)
    (input : json) :
  (∃ a, router_upsert upsert input = Returned a)
  ↔ ∃ fields uuid n,
      input = JObj fields
      ∧ obj_get fields "namespaceUuid" = Some (JStr uuid)
      ∧ is_uuid uuid = true
      ∧ obj_get fields "maxResults" = Some (JNum n)
      ∧ isInteger n = true ∧ (1 <= n)%Q ∧ (n <= 20)%Q
      ∧ (obj_get fields "providerConfig" = None
         ∨ obj_get fields "providerConfig" = Some JNull
         ∨ ∃ config, obj_get fields "providerConfig" = Some (JObj config)).
Proof.
  unfold router_upsert, ToolSearchConfigUpsertInputSchema. split.
  - intros [a Ha].
    destruct input as [| | | | |fields]; try discriminate.
    destruct (obj_get fields "namespaceUuid") as [[| | |uuid| |]|] eqn:Hu;
      try discriminate.
    destruct (obj_get fields "maxResults") as [[| |n| | |]|] eqn:Hm;
      try discriminate.
    destruct (is_uuid uuid) eqn:Huuid; [|discriminate].
    unfold number_in in Ha.
    destruct (isInteger n) eqn:Hint; [|discriminate].
    destruct (Qle_bool 1 n) eqn:Hlo; [|discriminate].
    destruct (Qle_bool n 20) eqn:Hhi; [|discriminate].
    apply Qle_bool_iff in Hlo, Hhi.
    exists fields, uuid, n. split_and!; [done..|].
    destruct (obj_get fields "providerConfig") as [[| | | | |config]|];
      try discriminate; eauto.
  - intros (fields & uuid & n & -> & Hu & Huuid & Hm & Hint & Hlo & Hhi & Hp).
    rewrite Hu, Hm, Huuid. unfold number_in. rewrite Hint.
    apply Qle_bool_iff in Hlo, Hhi. rewrite Hlo, Hhi.
    destruct Hp as [-> | [-> | [config ->]]]; by eexists.
Qed.

End UpsertProperties.

(** ** The empty-query policy *)

Section EmptyQueryProperties.

Lemma length_zero_empty (s : string) : String.length s = 0%nat → s = "".
Proof. by destruct s. Qed.

Lemma slice0_nonnegative {A} (l : list A) (n : Z) :
  (0 ≤ n)%Z → slice0 l n = take (Z.to_nat n) l.
Proof. intros Hn. unfold slice0. by rewrite (proj2 (Z.ltb_ge n 0) Hn). Qed.

(** C7, as the code has it: for a query that is empty or white space and
    a [maxResults] that is positive or absent, the BM25 provider, and the
    REGEX provider when no pattern is configured, return the first [m]
    available tools in the order of the pool, each with score 0.5 and the
    reason [No search query provided], where [m] is [maxResults], or 5
    when [maxResults] is absent. *)
Theorem empty_query_returns_first_tools {engine : RegExpEngine}
    calculateBM25Score this bm25 query availableTools m :
  trim (SearchInterface.query query) = "" →
  (maxResults query = Some m ∧ (0 < m)%Z)
  ∨ (maxResults query = None ∧ m = 5%Z) →
  ∃ first,
    length first = (Z.to_nat m `min` length availableTools)%nat
    ∧ (∀ (i : nat) r,
         first !! i = Some r →
         ∃ t, availableTools !! i = Some t
           ∧ result_tool r = tool t
           ∧ result_serverUuid r = serverUuid t
           ∧ score r = 0.5%Q
           ∧ matchReason r = "No search query provided")
    ∧ (RegexSearchProvider.pattern this = None →
       RegexSearchProvider.search this query availableTools = Normal first)
    ∧ BM25SearchProvider.search calculateBM25Score bm25 query availableTools
      = first.
Proof.
  intros Hblank Hmax.
  assert (or_number (maxResults query) 5 = m ∧ (0 ≤ m)%Z) as [Hm Hpos].
  { destruct Hmax as [[-> Hpos] | [-> ->]]; [|done]. simpl.
    rewrite (proj2 (Z.eqb_neq m 0)) by lia. split; [done | lia]. }
  exists (no_query_result <$> take (Z.to_nat m) availableTools). split_and!.
  - by rewrite length_fmap, length_take.
  - intros i r Hr. rewrite list_lookup_fmap in Hr.
    destruct (take (Z.to_nat m) availableTools !! i) as [t|] eqn:Ht;
      [|discriminate].
    injection Hr as <-. exists t. split; [|done].
    apply lookup_take_Some in Ht. by destruct Ht.
  - intros Hpattern. unfold RegexSearchProvider.search.
    rewrite Hpattern, Hblank, Hm. simpl.
    rewrite andb_false_r. simpl. by rewrite slice0_nonnegative.
  - unfold BM25SearchProvider.search. rewrite Hblank, Hm. simpl.
    rewrite orb_true_r. by rewrite slice0_nonnegative.
Qed.

Lemma empty_query_returns_first_tools_witness :
  ∃ first,
    RegexSearchProvider.search (engine := LiteralRegExp.engine)
      RegexSearchProvider.initial_config
      (example_query "   " (Some 2%Z)) example_pool = Normal first
    ∧ BM25SearchProvider.search (λ _ _ _ _, 0%Q)
        BM25SearchProvider.initial_provider (example_query "   " (Some 2%Z))
        example_pool = first
    ∧ name ∘ result_tool <$> first =
        ["filesystem__read_file"; "filesystem__write_file"].
Proof.
  destruct (empty_query_returns_first_tools (engine := LiteralRegExp.engine)
              (λ _ _ _ _, 0%Q)
              RegexSearchProvider.initial_config
              BM25SearchProvider.initial_provider
              (example_query "   " (Some 2%Z)) example_pool 2%Z)
    as (first & _ & _ & Hregex & Hbm25).
  - reflexivity.
  - left. split; [reflexivity | lia].
  - exists first. split; [by apply Hregex|]. split; [exact Hbm25|].
    by rewrite <- Hbm25.
Defined.

(** Where the policy does not hold.  With the pattern [file] configured,
    the REGEX provider answers an empty query with the tools that match
    the pattern, scored by their matches.  With [maxResults = 0] both
    providers return five tools, here the whole pool of three, and not
    none; with [maxResults = -1] they return all tools but the last. *)
Lemma empty_query_exceptions :
  (∃ results,
     RegexSearchProvider.search (engine := LiteralRegExp.engine)
       (RegexSearchProvider.initialize RegexSearchProvider.initial_config
          {| RegexSearchProvider.pattern := Some "file";
             RegexSearchProvider.caseInsensitive := None;
             RegexSearchProvider.fields := None |})
       (example_query "" (Some 5%Z)) example_pool = Normal results
     ∧ name ∘ result_tool <$> results =
         ["filesystem__read_file"; "filesystem__write_file"]
     ∧ matchReason <$> results =
         ["Matched in name, description"; "Matched in name, description"]
     ∧ name ∘ result_tool <$> results ≠
         name ∘ tool <$> take 5 example_pool)
  ∧ (∃ results,
       BM25SearchProvider.search (λ _ _ _ _, 0%Q)
         BM25SearchProvider.initial_provider (example_query "" (Some 0%Z))
         example_pool = results
       ∧ RegexSearchProvider.search (engine := LiteralRegExp.engine)
           RegexSearchProvider.initial_config
           (example_query "" (Some 0%Z)) example_pool = Normal results
       ∧ name ∘ result_tool <$> results = name ∘ tool <$> example_pool
       ∧ length results ≠ 0%nat)
  ∧ (∃ results,
       BM25SearchProvider.search (λ _ _ _ _, 0%Q)
         BM25SearchProvider.initial_provider (example_query "" (Some (-1)%Z))
         example_pool = results
       ∧ RegexSearchProvider.search (engine := LiteralRegExp.engine)
           RegexSearchProvider.initial_config
           (example_query "" (Some (-1)%Z)) example_pool = Normal results
       ∧ name ∘ result_tool <$> results =
           ["filesystem__read_file"; "filesystem__write_file"]).
Proof.
  split_and!.
  - eexists. split; [by vm_compute|]. split; [done|]. split; [done|].
    discriminate.
  - eexists. split; [reflexivity|]. split; [by vm_compute|]. split; [done|].
    discriminate.
  - eexists. split; [reflexivity|]. split; [by vm_compute | done].
Qed.

End EmptyQueryProperties.

(** ** The score of the REGEX provider *)

Section RegexScoreProperties.
Import RegexSearchProvider.
Open Scope Q_scope.

(** The loop body computes the score of a match as it is specified. *)
Lemma match_score_formula m : match_score m = specified_match_score m.
Proof.
  unfold match_score, specified_match_score, field_weight.
  rewrite (mul_comm (Double.of_nat (index m))).
  rewrite (mul_comm (Double.of_nat (length m))).
  by destruct (field m).
Qed.

(** On the sample, [Double] computes what the binary64 arithmetic of the
    Standard Library computes. *)
Lemma match_score_binary64 :
  Forall (λ m, binary64_value (binary64_match_score m) = Some (match_score m))
         sample_matches.
Proof.
  apply Forall_forall. intros m Hm.
  repeat (apply elem_of_cons in Hm as [-> | Hm]; [by vm_compute|]).
  by apply elem_of_nil in Hm.
Qed.

(** The least score of a match is [0.3 + 0.05], which is the double 0.35. *)
Lemma match_score_lower m : Double.literal 0.35 <= match_score m.
Proof.
  unfold match_score.
  set (position := Double.max _ _). set (bonus := Double.min _ _).
  assert (Double.literal 0.05 <= position) as Hposition by apply Q.le_max_l.
  assert (0 <= bonus) as Hbonus.
  { apply Q.min_glb; [by vm_compute|].
    apply mul_nonneg; [apply of_nat_nonneg | by vm_compute]. }
  destruct (field m).
  - apply Qle_trans with
      (Double.add (Double.add (Double.add 0 (Double.literal 0.6))
                              (Double.literal 0.05)) 0); [by vm_compute|].
    apply add_mono; [by vm_compute | | lra | exact Hbonus].
    apply add_mono; [by vm_compute | lra | by vm_compute | exact Hposition].
  - apply Qle_trans with
      (Double.add (Double.add (Double.add 0 (Double.literal 0.3))
                              (Double.literal 0.05)) 0); [by vm_compute|].
    apply add_mono; [by vm_compute | | lra | exact Hbonus].
    apply add_mono; [by vm_compute | lra | by vm_compute | exact Hposition].
Qed.

Lemma match_score_nonneg m : 0 <= match_score m.
Proof.
  apply Qle_trans with (Double.literal 0.35); [by vm_compute|].
  apply match_score_lower.
Qed.

Lemma fold_left_score_nonneg matches total :
  0 <= total →
  0 <= fold_left (λ totalScore m, Double.add totalScore (match_score m))
                 matches total.
Proof.
  revert total. induction matches as [|m matches IH]; intros total Htotal;
    simpl; [done|].
  apply IH, add_nonneg; [done | apply match_score_nonneg].
Qed.

Lemma fold_left_score_lower matches total :
  Double.literal 0.35 <= total →
  Double.literal 0.35 <=
    fold_left (λ totalScore m, Double.add totalScore (match_score m))
              matches total.
Proof.
  revert total. induction matches as [|m matches IH]; intros total Htotal;
    simpl; [done|].
  apply IH. pose proof (match_score_nonneg m) as Hm.
  assert (0 <= Double.literal 0.35) as H035 by by vm_compute.
  change (Double.literal 0.35) with (Double.round (Double.literal 0.35)) at 1.
  apply round_mono; lra.
Qed.

Lemma fold_left_score_formula matches total :
  fold_left (λ totalScore m, Double.add totalScore (match_score m))
            matches total =
  foldl (λ sum m, Double.add sum (specified_match_score m)) total matches.
Proof.
  revert total. induction matches as [|m matches IH]; intros total; simpl;
    [done|].
  by rewrite IH, match_score_formula.
Qed.

(** [calculateScore] is the specified score: the sum is never negative, so
    the upper clamp is the whole clamp. *)
Lemma calculateScore_formula matches :
  calculateScore matches == specified_score matches.
Proof.
  unfold calculateScore, specified_score, clamp_0_1.
  rewrite <- fold_left_score_formula.
  set (total := fold_left _ matches 0).
  assert (0 <= total) as Htotal by (apply fold_left_score_nonneg; lra).
  change (Double.literal 1.0) with 1.
  symmetry. apply Q.max_r. apply Q.min_glb; [by compute | done].
Qed.

(** A matched tool scores between the double 0.35 and 1. *)
Lemma calculateScore_range matches :
  matches ≠ [] →
  Double.literal 0.35 <= calculateScore matches ∧ calculateScore matches <= 1.
Proof.
  intros Hmatches. unfold calculateScore.
  destruct matches as [|m matches]; [done|]. simpl.
  set (total := fold_left _ matches _). split.
  - apply Q.min_glb; [by vm_compute|].
    apply fold_left_score_lower.
    change (Double.literal 0.35) with (Double.round (Double.literal 0.35)) at 1.
    pose proof (match_score_lower m) as Hm.
    assert (0 <= Double.literal 0.35) as H035 by by vm_compute.
    apply round_mono; lra.
  - change (Double.literal 1.0) with 1. apply Q.le_min_l.
Qed.

(** [sort_by_score] rearranges its argument into non-increasing scores. *)
Lemma insert_by_score_perm x sorted : insert_by_score x sorted ≡ₚ x :: sorted.
Proof.
  induction sorted as [|y sorted IH]; simpl; [done|].
  destruct (Qle_bool (score y) (score x)); [done|].
  rewrite IH. apply Permutation_swap.
Qed.

Lemma sort_by_score_perm results : sort_by_score results ≡ₚ results.
Proof.
  induction results as [|x results IH]; simpl; [done|].
  by rewrite insert_by_score_perm, IH.
Qed.

Lemma insert_by_score_sorted x sorted :
  StronglySorted (λ a b, score b <= score a) sorted →
  StronglySorted (λ a b, score b <= score a) (insert_by_score x sorted).
Proof.
  induction 1 as [|y sorted Hsorted IH Hy]; simpl.
  - repeat constructor.
  - destruct (Qle_bool (score y) (score x)) eqn:Hle.
    + apply Qle_bool_iff in Hle. constructor; [by constructor|].
      constructor; [done|].
      eapply Forall_impl; [exact Hy|]. intros z Hz. simpl in Hz. lra.
    + assert (score x <= score y) as Hxy.
      { apply Qnot_lt_le. intros Hlt. apply Qlt_le_weak, Qle_bool_iff in Hlt.
        congruence. }
      constructor; [done|].
      rewrite insert_by_score_perm. by constructor.
Qed.

Lemma sort_by_score_sorted results :
  StronglySorted (λ a b, score b <= score a) (sort_by_score results).
Proof.
  induction results as [|x results IH]; simpl; [constructor|].
  by apply insert_by_score_sorted.
Qed.

Lemma elem_of_insert_by_score r x sorted :
  r ∈ insert_by_score x sorted → r = x ∨ r ∈ sorted.
Proof.
  induction sorted as [|y sorted IH]; simpl.
  - intros ->%list_elem_of_singleton. by left.
  - destruct (Qle_bool (score y) (score x)).
    + intros [->|?]%elem_of_cons; by auto.
    + intros [->|?]%elem_of_cons; [right; by left|].
      destruct IH as [->|?]; [done | by left | right; by right].
Qed.

Lemma elem_of_sort_by_score r results :
  r ∈ sort_by_score results → r ∈ results.
Proof.
  induction results as [|x results IH]; simpl; [done|].
  intros [->|?]%elem_of_insert_by_score; [by left | right; auto].
Qed.

Lemma elem_of_slice0 {A} (x : A) l n : x ∈ slice0 l n → x ∈ l.
Proof.
  unfold slice0. destruct (n <? 0)%Z; apply subseteq_take.
Qed.

Context {engine : RegExpEngine}.

Lemma elem_of_matching_results r regex fields availableTools :
  r ∈ matching_results regex fields availableTools →
  ∃ t, t ∈ availableTools
    ∧ result_tool r = tool t
    ∧ result_serverUuid r = serverUuid t
    ∧ searchTool (tool t) regex fields ≠ []
    ∧ score r = calculateScore (searchTool (tool t) regex fields).
Proof.
  unfold matching_results. intros (t & Ht & Hr)%list_elem_of_omap.
  exists t. split; [done|].
  destruct (searchTool (tool t) regex fields) as [|m matches] eqn:Hmatches;
    [discriminate|].
  simpl in Hr. by injection Hr as <-.
Qed.

(** What [search] returns when it matches, for the regular expression of
    the search. *)
Lemma search_matching this query availableTools regex :
  is_Some (pattern this) ∨ trim (SearchInterface.query query) ≠ "" →
  search_regex this query regex →
  search this query availableTools =
  Normal (slice0 (sort_by_score
                    (matching_results regex (search_fields this) availableTools))
                 (or_number (maxResults query) 5)).
Proof.
  intros Hpath Hregex. unfold search.
  assert (negb (bool_decide (is_Some (pattern this)))
          && negb (negb (String.eqb (SearchInterface.query query) "")
                   && (0 <? String.length (trim (SearchInterface.query query)))%nat)
          = false) as ->.
  { destruct Hpath as [Hp | Hq].
    - by rewrite bool_decide_eq_true_2.
    - apply andb_false_iff. right. apply negb_false_iff, andb_true_iff. split.
      + apply negb_true_iff, String.eqb_neq. intros Heq.
        rewrite Heq in Hq. by apply Hq.
      + apply Nat.ltb_lt.
        destruct (String.length (trim (SearchInterface.query query)))
          eqn:Hlen; [|lia].
        by apply length_zero_empty in Hlen. }
  fold (search_pattern this query). fold (search_flags this).
  fold (search_fields this).
  destruct Hregex as [Hpattern | e Hpattern Hliteral].
  - by rewrite Hpattern.
  - by rewrite Hpattern, Hliteral.
Qed.

(** C8: when the REGEX provider matches tools (a pattern is configured or
    the query is not blank), every result is a tool of the pool that the
    regular expression of the search matches in at least one of the
    fields of the search, and its score is the sum, over these field
    matches of the tool, of the field weight (0.6 for the name, 0.3 for
    the description), the position bonus [max(0.05, 0.20 - 0.003 * index)]
    and the length bonus [min(0.20, 0.02 * length)], clamped to [0, 1].
    The numbers are doubles and every operation rounds as they do. *)
Theorem regex_score_formula this query availableTools regex :
  is_Some (pattern this) ∨ trim (SearchInterface.query query) ≠ "" →
  search_regex this query regex →
  ∃ results,
    search this query availableTools = Normal results
    ∧ ∀ r, r ∈ results →
        ∃ t, t ∈ availableTools
          ∧ result_tool r = tool t
          ∧ result_serverUuid r = serverUuid t
          ∧ searchTool (tool t) regex (search_fields this) ≠ []
          ∧ score r ==
            specified_score (searchTool (tool t) regex (search_fields this)).
Proof.
  intros Hpath Hregex. eexists. split; [by apply search_matching|].
  intros r Hr. apply elem_of_slice0, elem_of_sort_by_score in Hr.
  apply elem_of_matching_results in Hr as (t & Ht & Htool & Hserver & Hm & Hs).
  exists t. split_and!; [done..|]. by rewrite Hs, calculateScore_formula.
Qed.

End RegexScoreProperties.

Lemma regex_score_formula_witness :
  ∃ results,
    RegexSearchProvider.search (engine := LiteralRegExp.engine)
      RegexSearchProvider.initial_config (example_query "file" None)
      pool_with_read_file = Normal results
    ∧ RegexSearchProvider.searchTool (engine := LiteralRegExp.engine)
        (mkTool "read_file" None None None []) ("file", true)
        [RegexSearchProvider.FieldName; RegexSearchProvider.FieldDescription] =
        [{| RegexSearchProvider.field := RegexSearchProvider.FieldName;
            RegexSearchProvider.index := 5;
            RegexSearchProvider.length := 4 |}]
    ∧ score <$> results = [Double.literal 0.8649999999999999]
    ∧ score <$> results ≠ [Double.literal 0.865]
    ∧ ToolSearchTool.toFixed2 <$> (score <$> results) = ["0.86"].
Proof.
  destruct (regex_score_formula (engine := LiteralRegExp.engine)
              RegexSearchProvider.initial_config (example_query "file" None)
              pool_with_read_file ("file", true))
    as (results & Hsearch & Hscore).
  - right. by vm_compute.
  - by apply pattern_compiles.
  - exists results. split; [exact Hsearch|]. split; [reflexivity|].
    vm_compute in Hsearch. injection Hsearch as <-.
    split; [by vm_compute|]. split; [by vm_compute | by vm_compute].
Defined.

(** * Further properties *)

(** ** The middleware object: cache, flags and entry points *)

Section MiddlewareProperties.
Import DeferLoading.
Import DeferLoadingMiddleware.

(** X1: once a config has been resolved for an endpoint, later calls for
    that endpoint return it from the cache without reading the store,
    whatever the store then holds and whatever namespace is named. *)
Theorem resolved_config_is_served_from_cache
    repos namespaceUuid endpointUuid mw namespace endpoint overrides
    repos' namespaceUuid' :
  configCache mw !! endpointUuid = None →
  namespacesRepository_findByUuid repos namespaceUuid = Normal (Some namespace) →
  endpointsRepository_findByUuid repos endpointUuid = Normal endpoint →
  findToolDeferLoadingOverrides repos namespaceUuid = Normal overrides →
  ∃ resolved mw1 trace,
    getResolvedConfig repos namespaceUuid endpointUuid mw = (resolved, mw1, trace)
    ∧ getResolvedConfig repos' namespaceUuid' endpointUuid mw1 =
      (resolved, mw1, []).
Proof.
  intros Hmiss Hn Hep Hov.
  destruct (getResolvedConfig_miss_resolves repos namespaceUuid endpointUuid mw
              namespace endpoint overrides Hmiss Hn Hep Hov)
    as (resolved & Hcall & _).
  eexists _, _, _. split; [exact Hcall|].
  apply getResolvedConfig_hit. simpl. apply lookup_insert_eq.
Qed.

Lemma resolved_config_is_served_from_cache_witness :
  ∃ resolved mw1 trace,
    getResolvedConfig store_with_unset_override "ns-1" "ep-1"
      {| configCache := ∅ |} = (resolved, mw1, trace)
    ∧ getResolvedConfig failing_store "ns-2" "ep-1" mw1 = (resolved, mw1, []).
Proof.
  eapply (resolved_config_is_served_from_cache store_with_unset_override
            "ns-1" "ep-1" {| configCache := ∅ |}); reflexivity.
Defined.

(** X2: [invalidateCache] forgets the endpoint it names, so the next call
    for it reads the store, and keeps the entry of every other endpoint. *)
Theorem invalidateCache_forgets_one_endpoint endpointUuid mw :
  let '(_, mw1, _) := invalidateCache endpointUuid mw in
  ((∀ repos namespaceUuid,
      ∃ result mw2 trace,
        getResolvedConfig repos namespaceUuid endpointUuid mw1 =
        (result, mw2, FindNamespace namespaceUuid :: trace))
   ∧ ∀ other cached repos namespaceUuid,
       other ≠ endpointUuid →
       configCache mw !! other = Some cached →
       getResolvedConfig repos namespaceUuid other mw1 = (cached, mw1, [])).
Proof.
  simpl. split.
  - intros repos namespaceUuid. apply getResolvedConfig_miss_fetches.
    simpl. apply lookup_delete_eq.
  - intros other cached repos namespaceUuid Hne Hcached.
    apply getResolvedConfig_hit. simpl. by rewrite lookup_delete_ne.
Qed.

Lemma applyDeferLoading_nothing_to_flag tools config h :
  deferLoadingEnabled config = false →
  (∀ key, toolOverrides config !! key ≠ Some true) →
  applyDeferLoading tools config h = (tools, h).
Proof.
  intros Hoff Hnone. induction tools as [|tool rest IH]; simpl; [done|].
  assert (applyDeferLoading_tool config tool h = (tool, h)) as ->.
  { unfold applyDeferLoading_tool. destruct (h !! tool) as [o|]; [|done].
    destruct (String.eqb (name o) TOOL_SEARCH_TOOL_NAME); [done|].
    specialize (Hnone (name o)). unfold plain_object_get.
    destruct (toolOverrides config !! name o) as [[]|]; [done..|].
    rewrite Hoff. by destruct (bool_decide _). }
  by rewrite IH.
Qed.

(** X3: when the store fails (a lookup rejects or the namespace is
    absent), [process] returns the very list of tool objects it was given
    and creates no object: the advertised tools pass through unflagged. *)
Theorem process_passes_tools_through_on_failure
    repos tools namespaceUuid endpointUuid h mw :
  configCache mw !! endpointUuid = None →
  fetch_fails repos namespaceUuid endpointUuid →
  ∃ trace,
    process repos tools namespaceUuid endpointUuid h mw = (tools, h, mw, trace).
Proof.
  intros Hmiss Hfails.
  destruct (fetchAndCacheConfig_fails repos namespaceUuid endpointUuid mw Hfails)
    as [trace Hfetch].
  unfold process, bind, getResolvedConfig, mbind, M_bind, bind, cache_get.
  rewrite Hmiss, Hfetch. unfold ret.
  rewrite applyDeferLoading_nothing_to_flag; [by eexists | done |].
  intros key. simpl. by rewrite lookup_empty.
Qed.

Lemma process_passes_tools_through_on_failure_witness :
  ∃ trace,
    process failing_store example_tools "ns-1" "ep-1" example_heap
      {| configCache := ∅ |} =
    (example_tools, example_heap, {| configCache := ∅ |}, trace).
Proof.
  apply process_passes_tools_through_on_failure.
  - reflexivity.
  - by eapply namespace_lookup_rejects.
Defined.

(** X4: the flag step keeps every tool at its place with its name,
    description, schema and other properties; the only property it writes
    is [defer_loading], the only value it writes is [true], and it does not
    write it on the search tool. *)
Theorem applyDeferLoading_touches_only_the_flag tools config h out h' :
  Forall (λ r, is_Some (h !! r)) tools →
  applyDeferLoading tools config h = (out, h') →
  ∀ (i : nat) tool o,
    tools !! i = Some tool → h !! tool = Some o →
    ∃ r o', out !! i = Some r ∧ h' !! r = Some o'
      ∧ name o' = name o
      ∧ description o' = description o
      ∧ inputSchema o' = inputSchema o
      ∧ other_properties o' = other_properties o
      ∧ (defer_loading o' = defer_loading o ∨ defer_loading o' = Some true)
      ∧ (name o = TOOL_SEARCH_TOOL_NAME → defer_loading o' = defer_loading o).
Proof.
  intros Hwf Happly i tool o Htool Ho.
  pose proof (applyDeferLoading_deref tools config h Hwf) as Hderef.
  rewrite Happly in Hderef. destruct Hderef as [_ Hderef].
  assert (deref h' out !! i = Some (Some (flagged config o))) as Hi.
  { rewrite Hderef. unfold deref. rewrite !list_lookup_fmap, Htool. simpl.
    by rewrite Ho. }
  unfold deref in Hi. rewrite list_lookup_fmap in Hi.
  destruct (out !! i) as [r|] eqn:Hr; [|done]. simpl in Hi.
  exists r, (flagged config o). split; [done|]. split; [congruence|].
  unfold flagged, flags.
  destruct (String.eqb (name o) TOOL_SEARCH_TOOL_NAME) eqn:Hname; simpl.
  { split_and!; auto. }
  assert (name o ≠ TOOL_SEARCH_TOOL_NAME) by by apply String.eqb_neq.
  destruct (plain_object_get (toolOverrides config) (name o)) as [[]| |];
    [by split_and!; auto..|].
  destruct (deferLoadingEnabled config); by split_and!; auto.
Qed.

Lemma applyDeferLoading_touches_only_the_flag_witness :
  ∃ r o', (applyDeferLoading example_tools example_config example_heap).1 !! 1%nat
          = Some r
    ∧ (applyDeferLoading example_tools example_config example_heap).2 !! r
      = Some o'
    ∧ name o' = "filesystem__write_file"
    ∧ defer_loading o' = Some true.
Proof.
  assert (Forall (λ r, is_Some (example_heap !! r)) example_tools) as Hwf.
  { repeat first [apply List.Forall_nil
                 | apply List.Forall_cons; [vm_compute; by eexists|]]. }
  destruct (applyDeferLoading_touches_only_the_flag example_tools example_config
              example_heap _ _ Hwf eq_refl 1%nat 2%positive _ eq_refl eq_refl)
    as (r & o' & Hr & Ho' & Hname & _ & _ & _ & _ & _).
  exists r, o'. split; [exact Hr|]. split; [exact Ho'|]. split; [exact Hname|].
  vm_compute in Hr. injection Hr as <-. vm_compute in Ho'. by injection Ho' as <-.
Defined.

(** X5: a middleware that is disabled, or a context without an endpoint,
    leaves the response, the tool objects and the cache as they are and
    reads nothing from the store. *)
Theorem transformResponse_skips enabled repos response context h mw :
  enabled = Some false
  ∨ endpointUuid context = None
  ∨ endpointUuid context = Some "" →
  ∃ log,
    transformResponse enabled repos response context h mw =
      (response, h, mw, log)
    ∧ ∀ e, OfMiddleware e ∉ log.
Proof.
  unfold transformResponse.
  intros [-> | Hcontext]; simpl.
  { eexists. split; [done|]. intros e. apply not_elem_of_nil. }
  destruct (if enabled is Some e then e else true).
  - destruct Hcontext as [-> | ->]; simpl; (eexists; split; [done|]);
      intros e [=]%list_elem_of_singleton.
  - eexists. split; [done|]. intros e. apply not_elem_of_nil.
Qed.

Lemma transformResponse_skips_witness :
  ∃ log,
    transformResponse None failing_store
      {| tools := example_tools; response_properties := [] |}
      {| namespaceUuid := "ns-1"; endpointUuid := None |}
      example_heap {| configCache := ∅ |} =
      ({| tools := example_tools; response_properties := [] |},
       example_heap, {| configCache := ∅ |}, log)
    ∧ ∀ e, OfMiddleware e ∉ log.
Proof.
  apply transformResponse_skips. right. by left.
Defined.

(** X6: [clearCache] empties the cache: the statistics show no endpoint,
    and the next call for any endpoint reads the store. *)
Theorem clearCache_forgets_every_endpoint mw :
  let '(_, mw1, _) := clearCache mw in
  (getCacheStats mw1 = (0%nat, ∅)
   ∧ ∀ repos namespaceUuid endpointUuid,
       ∃ result mw2 trace,
         getResolvedConfig repos namespaceUuid endpointUuid mw1 =
         (result, mw2, FindNamespace namespaceUuid :: trace)).
Proof.
  simpl. split.
  - unfold getCacheStats. simpl. by rewrite map_size_empty, dom_empty_L.
  - intros repos namespaceUuid endpointUuid.
    apply getResolvedConfig_miss_fetches. simpl. apply lookup_empty.
Qed.

Lemma fail_safe_path repos namespaceUuid endpointUuid mw :
  configCache mw !! endpointUuid = None →
  fetch_fails repos namespaceUuid endpointUuid →
  ∃ trace,
    getResolvedConfig repos namespaceUuid endpointUuid mw =
    (getFailSafeConfig, mw, trace).
Proof.
  intros Hmiss Hfails.
  destruct (fetchAndCacheConfig_fails repos namespaceUuid endpointUuid mw Hfails)
    as [trace Hfetch].
  unfold getResolvedConfig, mbind, M_bind, bind, cache_get.
  rewrite Hmiss, Hfetch. by eexists.
Qed.

(** X7: the statistics count the endpoints whose config was resolved: a
    call that misses the cache and resolves adds its endpoint, a call that
    ends in the fail-safe config adds nothing. *)
Theorem getCacheStats_counts_resolved_endpoints
    repos namespaceUuid endpointUuid mw :
  configCache mw !! endpointUuid = None →
  let '(result, mw1, _) := getResolvedConfig repos namespaceUuid endpointUuid mw in
  (fetch_fails repos namespaceUuid endpointUuid
   ∧ result = getFailSafeConfig
   ∧ getCacheStats mw1 = getCacheStats mw)
  ∨ (¬ fetch_fails repos namespaceUuid endpointUuid
     ∧ getCacheStats mw1 =
       (S (getCacheStats mw).1, {[endpointUuid]} ∪ (getCacheStats mw).2)).
Proof.
  intros Hmiss.
  destruct (namespacesRepository_findByUuid repos namespaceUuid)
    as [[namespace|]|e] eqn:Hn.
  - destruct (endpointsRepository_findByUuid repos endpointUuid)
      as [endpoint|e] eqn:Hep.
    + destruct (findToolDeferLoadingOverrides repos namespaceUuid)
        as [overrides|e] eqn:Hov.
      * destruct (getResolvedConfig_miss_resolves repos namespaceUuid
                    endpointUuid mw namespace endpoint overrides Hmiss Hn Hep Hov)
          as (resolved & -> & _).
        right. split.
        { intros [? H | H | ? ? ? H | ? ? ? ? ? H]; congruence. }
        unfold getCacheStats. simpl.
        by rewrite map_size_insert_None, dom_insert_L.
      * assert (fetch_fails repos namespaceUuid endpointUuid) as Hfails
          by by eapply overrides_lookup_rejects.
        destruct (fail_safe_path repos namespaceUuid endpointUuid mw Hmiss Hfails)
          as [trace ->]. by left.
    + assert (fetch_fails repos namespaceUuid endpointUuid) as Hfails
        by by eapply endpoint_lookup_rejects.
      destruct (fail_safe_path repos namespaceUuid endpointUuid mw Hmiss Hfails)
        as [trace ->]. by left.
  - assert (fetch_fails repos namespaceUuid endpointUuid) as Hfails
      by by eapply namespace_absent.
    destruct (fail_safe_path repos namespaceUuid endpointUuid mw Hmiss Hfails)
      as [trace ->]. by left.
  - assert (fetch_fails repos namespaceUuid endpointUuid) as Hfails
      by by eapply namespace_lookup_rejects.
    destruct (fail_safe_path repos namespaceUuid endpointUuid mw Hmiss Hfails)
      as [trace ->]. by left.
Qed.

Lemma getCacheStats_counts_resolved_endpoints_witness :
  let '(result, mw1, _) :=
    getResolvedConfig store_with_unset_override "ns-1" "ep-1"
      {| configCache := ∅ |} in
  (fetch_fails store_with_unset_override "ns-1" "ep-1"
   ∧ result = getFailSafeConfig
   ∧ getCacheStats mw1 = getCacheStats {| configCache := ∅ |})
  ∨ (¬ fetch_fails store_with_unset_override "ns-1" "ep-1"
     ∧ getCacheStats mw1 =
       (S (getCacheStats {| configCache := ∅ |}).1,
        {["ep-1"]} ∪ (getCacheStats {| configCache := ∅ |}).2)).
Proof.
  exact (getCacheStats_counts_resolved_endpoints store_with_unset_override
           "ns-1" "ep-1" {| configCache := ∅ |} eq_refl).
Defined.

End MiddlewareProperties.

(** ** The provider registry *)

Section FactoryProperties.
Import SearchProviderFactory.

Lemma Map_get_Map_set providers method provider method' :
  Map_get (Map_set providers method provider) method' =
  if decide (method = method') then Some provider else Map_get providers method'.
Proof.
  induction providers as [|[m p] rest IH]; simpl.
  - by destruct (decide (method = method')).
  - destruct (decide (m = method)) as [->|Hne]; simpl.
    + by destruct (decide (method = method')).
    + destruct (decide (m = method')) as [->|Hne'].
      * by rewrite decide_False by done.
      * by rewrite IH.
Qed.

Lemma Map_has_keys providers method :
  Map_has providers method = true ↔ method ∈ Map_keys providers.
Proof.
  unfold Map_has, Map_keys. rewrite bool_decide_eq_true.
  induction providers as [|[m p] rest IH]; simpl.
  - split; [by intros [? ?] | by intros ?%elem_of_nil].
  - rewrite elem_of_cons. destruct (decide (m = method)) as [->|Hne].
    + split; [by left | by eexists].
    + rewrite IH. split; [by right | by intros [?|?]].
Qed.

(** X8: looking up after [register]: the method registered last is
    answered with the class given, the others as before; and [isSupported]
    holds after [register] for that method and for the methods supported
    before, and for no other. *)
Theorem register_then_lookup providers method provider method' :
  Map_get (register providers method provider) method' =
    (if decide (method = method') then Some provider
     else Map_get providers method')
  ∧ isSupported (register providers method provider) method' =
    bool_decide (method' = method) || isSupported providers method'.
Proof.
  unfold register. split; [apply Map_get_Map_set|].
  unfold isSupported, Map_has. rewrite Map_get_Map_set.
  destruct (decide (method' = NONE)) as [->|_]; [by rewrite orb_true_r|].
  destruct (decide (method = method')) as [->|Hne].
  - rewrite bool_decide_eq_true_2 by done.
    by rewrite bool_decide_eq_true_2 by by eexists.
  - by rewrite (bool_decide_eq_false_2 (method' = method)) by done.
Qed.

(** X9: [isSupported] and [getSupportedMethods] agree: a method is
    supported exactly when it is listed. *)
Theorem isSupported_iff_listed providers method :
  isSupported providers method = true ↔ method ∈ getSupportedMethods providers.
Proof.
  unfold isSupported, getSupportedMethods. rewrite elem_of_cons.
  destruct (decide (method = NONE)) as [->|Hne].
  - split; [by left | done].
  - rewrite Map_has_keys. split; [by right | by intros [?|?]].
Qed.



(** X11: the registry as initialised supports [NONE], [REGEX] and [BM25],
    in this order, whatever the two provider classes are; creating an
    [EMBEDDINGS] provider throws, and the message names the providers that
    are available. *)
Theorem embeddings_is_not_registered RegexSearchProvider BM25SearchProvider
    config :
  getSupportedMethods (registered RegexSearchProvider BM25SearchProvider) =
    [NONE; REGEX; BM25]
  ∧ isSupported (registered RegexSearchProvider BM25SearchProvider) EMBEDDINGS
    = false
  ∧ create (registered RegexSearchProvider BM25SearchProvider) EMBEDDINGS config
    = Throw ("Search provider " +:+ dquote +:+ "EMBEDDINGS" +:+ dquote +:+
             " is not registered. Available providers: REGEX, BM25").
Proof. by split_and!. Qed.

End FactoryProperties.

(** ** The service and the search tool *)

Section ServiceCacheProperties.
#[local] Abbreviation Tool_name := name.
#[local] Abbreviation Tool_description := description.
Import ToolSearchService.
Import ToolSearchTool.

Lemma or_number_twice a c : or_number (Some (or_number a c)) c = or_number a c.
Proof.
  unfold or_number. destruct a as [n|].
  - destruct (n =? 0)%Z eqn:Hn.
    + by destruct (c =? 0)%Z eqn:Hc; [apply Z.eqb_eq in Hc|].
    + by rewrite Hn.
  - by destruct (c =? 0)%Z eqn:Hc; [apply Z.eqb_eq in Hc|].
Qed.

(** X12: a provider is created once for a method and a config: after
    [getProvider] has given a provider, the same request is answered with
    that provider from the cache, whatever the factory would now do. *)
Theorem provider_is_created_once
    create create' stringify method config providerCache provider cache1 :
  getProvider create stringify method config providerCache =
    (Normal provider, cache1) →
  getProvider create' stringify method config cache1 = (Normal provider, cache1).
Proof.
  unfold getProvider.
  set (cacheKey := _ +:+ _).
  destruct (providerCache !! cacheKey) as [cached|] eqn:Hcached.
  - intros [= <- <-]. by rewrite Hcached.
  - destruct (create method config) as [created|e]; [|done].
    intros [= <- <-]. by rewrite lookup_insert_eq.
Qed.

Lemma provider_is_created_once_witness :
  getProvider (λ _ _, Throw "no factory") (λ _, "{}") REGEX None
    {[ "REGEX:{}" := silent_provider "REGEX" ]} =
  (Normal (silent_provider "REGEX"), {[ "REGEX:{}" := silent_provider "REGEX" ]}).
Proof.
  apply (provider_is_created_once (λ _ _, Normal (silent_provider "REGEX")) _
           (λ _, "{}") REGEX None ∅).
  reflexivity.
Defined.

(** X13: when the factory throws for a method other than [NONE] whose
    provider is not cached, the search tool rejects with what the factory
    threw, and nothing is added to the provider cache.  The provider config
    is absent or truthy here, so that the cache key is built from it. *)
Theorem provider_failure_propagates
    create stringify args availableTools searchConfig providerCache e :
  searchMethod searchConfig ≠ NONE →
  providerConfig searchConfig = None
  ∨ SearchProviderFactory.truthy (providerConfig searchConfig) = true →
  providerCache !! providerCacheKey stringify (searchMethod searchConfig)
                     (providerConfig searchConfig) = None →
  create (searchMethod searchConfig) (providerConfig searchConfig) = Throw e →
  executeToolSearch create stringify args availableTools searchConfig
                    providerCache = (Throw e, providerCache).
Proof.
  intros Hmethod _ Hmiss Hthrow.
  unfold providerCacheKey in Hmiss.
  unfold executeToolSearch, search, getProvider. simpl.
  destruct (searchMethod searchConfig); [done|..]; simpl in *;
    by rewrite Hmiss, Hthrow.
Qed.

Lemma provider_failure_propagates_witness :
  executeToolSearch (SearchProviderFactory.create example_registry)
    (λ _, "{}") {| query := "file"; max_results := None |} example_pool
    {| searchMethod := EMBEDDINGS; maxResults := 5; providerConfig := None |} ∅ =
  (Throw ("Search provider " +:+ dquote +:+ "EMBEDDINGS" +:+ dquote +:+
          " is not registered. Available providers: REGEX, BM25"), ∅).
Proof.
  apply provider_failure_propagates;
    [discriminate | by left | reflexivity | reflexivity].
Defined.

(** X14: for a method other than [NONE] the search tool asks the provider
    once, with the query of the arguments and with [max_results] of the
    arguments as the limit, or [maxResults] of the config when the
    arguments give none (or zero); the results become reference blocks in
    the same order, and a rejection of the provider is passed on. *)
Theorem executeToolSearch_asks_the_provider
    create stringify args availableTools searchConfig providerCache
    provider cache1 :
  searchMethod searchConfig ≠ NONE →
  getProvider create stringify (searchMethod searchConfig)
              (providerConfig searchConfig) providerCache =
    (Normal provider, cache1) →
  executeToolSearch create stringify args availableTools searchConfig
                    providerCache =
  (match provider_search provider
           {| SearchInterface.query := query args;
              SearchInterface.maxResults :=
                Some (or_number (max_results args) (maxResults searchConfig));
              namespaceUuid := None;
              endpointUuid := None |}
           availableTools with
   | Normal searchResults =>
     Normal {| content := createToolReferenceBlock <$> searchResults;
               isError := None |}
   | Throw e => Throw e
   end, cache1).
Proof.
  intros Hmethod Hprovider. unfold executeToolSearch, search.
  destruct (searchMethod searchConfig); [done|..];
    rewrite Hprovider;
    cbn [SearchInterface.maxResults SearchInterface.query namespaceUuid
         endpointUuid];
    rewrite or_number_twice;
    by destruct (provider_search provider _ _).
Qed.

Lemma executeToolSearch_asks_the_provider_witness :
  executeToolSearch (λ _ _, Normal first_tools_provider) (λ _, "{}")
    {| query := ""; max_results := Some 1%Z |} example_pool
    {| searchMethod := REGEX; maxResults := 5; providerConfig := None |} ∅ =
  (Normal {| content :=
               [{| name := "filesystem__read_file";
                   description :=
                     "Read a file (score: 0.50, No search query provided)" |}];
             isError := None |},
   {[ "REGEX:{}" := first_tools_provider ]}).
Proof.
  rewrite (executeToolSearch_asks_the_provider
             (λ _ _, Normal first_tools_provider) (λ _, "{}")
             {| query := ""; max_results := Some 1%Z |} example_pool
             {| searchMethod := REGEX; maxResults := 5;
                providerConfig := None |}
             ∅ first_tools_provider {[ "REGEX:{}" := first_tools_provider ]});
    [reflexivity | discriminate | reflexivity].
Defined.

(** X15: with the method [NONE] the search tool returns one reference
    block for every available tool, in the order of the pool and whatever
    [max_results] says: the block has the name of the tool, and its
    description is the description of the tool (or [No description
    available]) followed by [(score: 0.50, Search disabled (method: NONE))]. *)
Theorem executeToolSearch_none
    create stringify args availableTools searchConfig providerCache :
  searchMethod searchConfig = NONE →
  executeToolSearch create stringify args availableTools searchConfig
                    providerCache =
  (Normal
     {| content :=
          (λ t,
             {| name := Tool_name (tool t);
                description :=
                  (match Tool_description (tool t) with
                   | Some d => if String.eqb d "" then "No description available"
                               else d
                   | None => "No description available"
                   end) +:+ " (score: 0.50, Search disabled (method: NONE))" |})
          <$> availableTools;
        isError := None |},
   providerCache).
Proof.
  intros Hnone. unfold executeToolSearch, search. rewrite Hnone.
  f_equal. f_equal. f_equal. rewrite <- list_fmap_compose.
  apply list_fmap_ext. by intros i [t s] _.
Qed.

Lemma executeToolSearch_none_witness :
  ∃ blocks,
    executeToolSearch (λ _ _, Throw "unused") (λ _, "")
      {| query := "file"; max_results := Some 1%Z |} example_pool
      {| searchMethod := NONE; maxResults := 5; providerConfig := None |} ∅ =
    (Normal {| content := blocks; isError := None |}, ∅)
    ∧ length blocks = 3%nat.
Proof.
  eexists. split; [by apply executeToolSearch_none|]. reflexivity.
Defined.

End ServiceCacheProperties.

(** [shouldIncludeSearchTool] reads the namespace alone. *)
Section SearchToolListingProperties.
Import DeferLoading.



End SearchToolListingProperties.

(** ** The REGEX provider *)

Lemma slice0_is_take {A} (l : list A) (n : Z) : ∃ k, slice0 l n = take k l.
Proof. unfold slice0. destruct (n <? 0)%Z; by eexists. Qed.

Lemma slice0_length {A} (l : list A) (n : Z) :
  (length (slice0 l n) ≤
   if (n <? 0)%Z then length l else Z.to_nat n)%nat.
Proof.
  unfold slice0. destruct (n <? 0)%Z; rewrite length_take; lia.
Qed.

Lemma omap_length_le {A B} (f : A → option B) (l : list A) :
  (length (omap f l) ≤ length l)%nat.
Proof.
  induction l as [|x l IH]; csimpl; [done|]. destruct (f x); csimpl; lia.
Qed.

Lemma StronglySorted_take {A} (R : A → A → Prop) (l : list A) (k : nat) :
  StronglySorted R l → StronglySorted R (take k l).
Proof.
  intros Hsorted. revert k.
  induction Hsorted as [|x l Hsorted IH Hx]; intros [|k]; simpl;
    try constructor; [apply IH|].
  eapply Forall_take in Hx. exact Hx.
Qed.

Lemma no_query_results_sorted (tools : list ToolWithServer) :
  StronglySorted (λ a b, score b <= score a)%Q (no_query_result <$> tools).
Proof.
  induction tools as [|t tools IH]; simpl; constructor; [done|].
  apply Forall_fmap, Forall_true. intros t'. simpl. lra.
Qed.

Lemma literal_of_escaped s :
  LiteralRegExp.literal_of_pattern (RegexSearchProvider.escapeRegexLiteral s)
  = Some s.
Proof.
  induction s as [|c s IH]; simpl; [done|].
  destruct (RegexSearchProvider.isRegexSpecial c) eqn:Hspecial; simpl.
  - by rewrite Hspecial, IH.
  - destruct (nat_of_ascii c =? 92)%nat eqn:H92.
    + apply Nat.eqb_eq in H92.
      unfold RegexSearchProvider.isRegexSpecial in Hspecial.
      rewrite H92 in Hspecial. by vm_compute in Hspecial.
    + by rewrite Hspecial, IH.
Qed.

Section RegexProviderProperties.
Import RegexSearchProvider.
Context {engine : RegExpEngine}.

(** X17: whatever path [search] takes, what it returns is ranked: the
    scores do not increase along the list, every score lies between 0.35
    and 1 (as doubles: the least score is [0.3 + 0.05]), and the list is no
    longer than the limit ([maxResults], or 5 when it is absent or 0), or
    than the pool when the limit is negative. *)
Theorem regex_results_are_ranked this query availableTools results :
  search this query availableTools = Normal results →
  StronglySorted (λ a b, score b <= score a)%Q results
  ∧ Forall (λ r, Double.literal 0.35 <= score r ∧ score r <= 1)%Q results
  ∧ (List.length results ≤
     if (or_number (maxResults query) 5 <? 0)%Z
     then List.length availableTools
     else Z.to_nat (or_number (maxResults query) 5))%nat.
Proof.
  unfold search.
  destruct (negb (bool_decide (is_Some (pattern this))) && _).
  - intros [= <-]. split_and!.
    + destruct (slice0_is_take availableTools (or_number (maxResults query) 5))
        as [k ->].
      apply no_query_results_sorted.
    + apply Forall_fmap, Forall_true. intros t. simpl. split; by compute.
    + rewrite length_fmap. apply slice0_length.
  - set (compiled := match RegExp_new _ _ with
                     | Normal regex => _ | Throw _ => _ end).
    destruct compiled as [regex|e]; [|discriminate].
    intros [= <-].
    set (fields := if RegexSearchProvider.fields this is Some f then f
                   else [FieldName; FieldDescription]).
    split_and!.
    + destruct (slice0_is_take
                  (sort_by_score (matching_results regex fields availableTools))
                  (or_number (maxResults query) 5)) as [k ->].
      apply StronglySorted_take, sort_by_score_sorted.
    + apply Forall_forall. intros r Hr.
      apply elem_of_slice0, elem_of_sort_by_score in Hr.
      apply elem_of_matching_results
        in Hr as (t & _ & _ & _ & Hmatches & Hscore).
      rewrite Hscore. by apply calculateScore_range.
    + etrans; [apply slice0_length|].
      destruct (_ <? 0)%Z; [|done].
      rewrite (Permutation_length (sort_by_score_perm _)).
      unfold matching_results. apply omap_length_le.
Qed.

(** X18: a configured pattern the engine rejects is replaced by the
    escaped query: for a query that is not blank, the search gives what it
    gives when no pattern is configured. *)
Theorem invalid_pattern_falls_back_to_query this query availableTools p e :
  pattern this = Some p →
  RegExp_new p (if caseInsensitive this is Some true then "i" else "")
    = Throw e →
  trim (SearchInterface.query query) ≠ "" →
  search this query availableTools =
  search {| pattern := None;
            caseInsensitive := caseInsensitive this;
            fields := RegexSearchProvider.fields this |}
         query availableTools.
Proof.
  intros Hpattern Hthrow Hquery. unfold search. rewrite Hpattern. simpl.
  assert (negb (String.eqb (SearchInterface.query query) "")
          && (0 <? String.length (trim (SearchInterface.query query)))%nat
          = true) as ->.
  { apply andb_true_iff. split.
    - apply negb_true_iff, String.eqb_neq. intros Heq.
      rewrite Heq in Hquery. by apply Hquery.
    - apply Nat.ltb_lt.
      destruct (String.length (trim (SearchInterface.query query)))
        eqn:Hlen; [|lia].
      by apply length_zero_empty in Hlen. }
  simpl.
  destruct (String.eqb p "") eqn:Hp.
  - reflexivity.
  - rewrite Hthrow.
    by destruct (RegExp_new (escapeRegexLiteral (SearchInterface.query query)) _).
Qed.

(** X19: [search] resolves whenever the engine compiles every escaped
    literal: an invalid configured pattern is caught, and the fallback
    cannot be rejected. *)
Theorem regex_search_resolves this query availableTools :
  (∀ s flags, ∃ regex, RegExp_new (escapeRegexLiteral s) flags = Normal regex) →
  ∃ results, search this query availableTools = Normal results.
Proof.
  intros Hescaped. unfold search.
  destruct (negb (bool_decide (is_Some (pattern this))) && _); [by eexists|].
  set (flags := if caseInsensitive this is Some true then "i" else "").
  destruct (Hescaped (SearchInterface.query query) flags) as [fallback Hfallback].
  destruct (RegExp_new _ flags) as [regex|e] eqn:Hcompiled at 1.
  - by eexists.
  - rewrite Hfallback. by eexists.
Qed.

End RegexProviderProperties.

Lemma regex_results_are_ranked_witness :
  ∃ results,
    RegexSearchProvider.search (engine := LiteralRegExp.engine)
      RegexSearchProvider.initial_config (example_query "file" (Some 1%Z))
      example_pool = Normal results
    ∧ Forall (λ r, Double.literal 0.35 <= score r ∧ score r <= 1)%Q results
    ∧ (List.length results ≤ 1)%nat.
Proof.
  eexists. split; [by vm_compute|].
  destruct (regex_results_are_ranked (engine := LiteralRegExp.engine)
              RegexSearchProvider.initial_config
              (example_query "file" (Some 1%Z)) example_pool _ eq_refl)
    as (_ & Hrange & Hlength).
  split; [exact Hrange | exact Hlength].
Defined.

Lemma invalid_pattern_falls_back_to_query_witness :
  RegexSearchProvider.search (engine := LiteralRegExp.engine)
    {| RegexSearchProvider.pattern := Some "(";
       RegexSearchProvider.caseInsensitive := Some true;
       RegexSearchProvider.fields := None |}
    (example_query "fetch" None) example_pool =
  RegexSearchProvider.search (engine := LiteralRegExp.engine)
    {| RegexSearchProvider.pattern := None;
       RegexSearchProvider.caseInsensitive := Some true;
       RegexSearchProvider.fields := None |}
    (example_query "fetch" None) example_pool.
Proof.
  apply (invalid_pattern_falls_back_to_query (engine := LiteralRegExp.engine)
           {| RegexSearchProvider.pattern := Some "(";
              RegexSearchProvider.caseInsensitive := Some true;
              RegexSearchProvider.fields := None |}
           (example_query "fetch" None) example_pool
           "(" "pattern with operators");
    [reflexivity | reflexivity | by vm_compute].
Defined.

Lemma regex_search_resolves_witness :
  ∃ results,
    RegexSearchProvider.search (engine := LiteralRegExp.engine)
      {| RegexSearchProvider.pattern := Some "(";
         RegexSearchProvider.caseInsensitive := Some true;
         RegexSearchProvider.fields := None |}
      (example_query "a.b" None) example_pool = Normal results.
Proof.
  apply (regex_search_resolves (engine := LiteralRegExp.engine)).
  intros s flags. simpl. rewrite literal_of_escaped. by eexists.
Defined.

(** ** The BM25 provider *)

Lemma toLowerCase_char_idempotent c :
  toLowerCase_char (toLowerCase_char c) = toLowerCase_char c.
Proof. by destruct c as [[] [] [] [] [] [] [] []]. Qed.

Lemma toLowerCase_char_token c :
  isNonWordChar (toLowerCase_char c) || isTokenChar (toLowerCase_char c) = true.
Proof. by destruct c as [[] [] [] [] [] [] [] []]. Qed.

Lemma toLowerCase_char_nonword c :
  isNonWordChar c = true → isNonWordChar (toLowerCase_char c) = true.
Proof. by destruct c as [[] [] [] [] [] [] [] []]. Qed.

Lemma toLowerCase_idempotent s : toLowerCase (toLowerCase s) = toLowerCase s.
Proof.
  induction s as [|c s IH]; simpl; [done|].
  by rewrite toLowerCase_char_idempotent, IH.
Qed.

Lemma string_forall_app P s c :
  string_forall P s = true → P c = true →
  string_forall P (s +:+ String c EmptyString) = true.
Proof.
  intros Hs Hc. induction s as [|d s IH]; simpl in *.
  - by rewrite Hc.
  - apply andb_true_iff in Hs as [Hd Hs]. by rewrite Hd, IH.
Qed.

Lemma split_runs_from_pieces sep P s piece in_run :
  string_forall P piece = true →
  string_forall (λ c, sep c || P c) s = true →
  Forall (λ token, string_forall P token = true)
         (split_runs_from sep s piece in_run).
Proof.
  revert piece in_run. induction s as [|c s IH]; intros piece in_run Hpiece Hs;
    simpl in *.
  - by constructor.
  - apply andb_true_iff in Hs as [Hc Hs].
    destruct (sep c); simpl in Hc.
    + destruct in_run; [by apply IH|]. constructor; [done | by apply IH].
    + apply IH; [by apply string_forall_app | done].
Qed.

Lemma split_runs_from_separators sep s piece in_run :
  string_forall sep s = true →
  Forall (λ token, token = piece ∨ token = "")
         (split_runs_from sep s piece in_run).
Proof.
  revert piece in_run. induction s as [|c s IH]; intros piece in_run Hs;
    simpl in *.
  - constructor; [by left | constructor].
  - apply andb_true_iff in Hs as [Hc Hs]. rewrite Hc.
    destruct in_run; [by apply IH|].
    constructor; [by left|].
    eapply Forall_impl; [by apply IH|]. simpl. by intros token [-> | ->]; right.
Qed.

Lemma filter_Forall {A} (P : A → Prop) (f : A → bool) (l : list A) :
  Forall P l → Forall P (List.filter f l).
Proof.
  induction 1 as [|x l Hx Hl IH]; simpl; [constructor|].
  destruct (f x); [by constructor | done].
Qed.

Lemma filter_accepts {A} (f : A → bool) (l : list A) :
  Forall (λ x, f x = true) (List.filter f l).
Proof.
  induction l as [|x l IH]; simpl; [constructor|].
  destruct (f x) eqn:Hx; [by constructor | done].
Qed.

Lemma filter_rejects_all {A} (f : A → bool) (l : list A) :
  Forall (λ x, f x = false) l → List.filter f l = [].
Proof.
  induction 1 as [|x l Hx Hl IH]; simpl; [done|]. by rewrite Hx.
Qed.

Lemma toLowerCase_token_chars text :
  string_forall (λ c, isNonWordChar c || isTokenChar c) (toLowerCase text) = true.
Proof.
  induction text as [|c text IH]; simpl; [done|].
  by rewrite toLowerCase_char_token, IH.
Qed.

Lemma toLowerCase_separators text :
  string_forall isNonWordChar text = true →
  string_forall isNonWordChar (toLowerCase text) = true.
Proof.
  induction text as [|c text IH]; simpl; [done|].
  intros [Hc Htext]%andb_true_iff.
  by rewrite toLowerCase_char_nonword, IH.
Qed.

Lemma occurrences_not_elem term tokens :
  term ∉ tokens → occurrences term tokens = 0%nat.
Proof.
  unfold occurrences. induction tokens as [|t tokens IH]; simpl; [done|].
  intros Hnotin. apply not_elem_of_cons in Hnotin as [Hne Hnotin].
  rewrite (proj2 (String.eqb_neq term t) Hne). by apply IH.
Qed.

Lemma calculateTermFrequency_foldl (freq : gmap string nat) tokens term :
  foldl (λ freq token, <[token := (default 0 (freq !! token) + 1)%nat]> freq)
        freq tokens !! term =
  if decide (term ∈ tokens)
  then Some (default 0 (freq !! term) + occurrences term tokens)%nat
  else freq !! term.
Proof.
  revert freq. induction tokens as [|t tokens IH]; intros freq; simpl; [done|].
  rewrite IH. unfold occurrences. simpl.
  destruct (decide (term = t)) as [->|Hne].
  - rewrite String.eqb_refl, lookup_insert_eq. simpl.
    destruct (decide (t ∈ t :: tokens)) as [_|Hnotin];
      [|by destruct Hnotin; left].
    destruct (decide (t ∈ tokens)) as [Hin|Hnotin].
    + f_equal. lia.
    + apply occurrences_not_elem in Hnotin. unfold occurrences in Hnotin.
      by rewrite Hnotin.
  - rewrite (proj2 (String.eqb_neq term t) Hne).
    rewrite lookup_insert_ne by done.
    destruct (decide (term ∈ tokens)) as [Hin|Hnotin].
    + destruct (decide (term ∈ t :: tokens)) as [_|Hnotin]; [done|].
      by destruct Hnotin; right.
    + destruct (decide (term ∈ t :: tokens)) as [Hin|_]; [|done].
      by apply elem_of_cons in Hin as [?|?].
Qed.

Section BM25ProviderProperties.
Import BM25SearchProvider.

(** X20: the tokens [tokenize] gives are normalised: none is empty, each
    consists of characters of [a-z0-9_], and lower-casing the text first
    changes nothing. *)
Theorem tokens_are_normalised text :
  Forall (λ token, token ≠ "" ∧ string_forall isTokenChar token = true)
         (tokenize text)
  ∧ tokenize (toLowerCase text) = tokenize text.
Proof.
  unfold tokenize. split.
  - apply Forall_and. split.
    + eapply Forall_impl; [apply filter_accepts|].
      simpl. by intros token Hlen ->.
    + apply filter_Forall. unfold split_runs.
      apply split_runs_from_pieces; [done | apply toLowerCase_token_chars].
  - by rewrite toLowerCase_idempotent.
Qed.

(** X21: [calculateTermFrequency] counts: a term has an entry exactly when
    it occurs among the tokens, and the entry is the number of its
    occurrences. *)
Theorem calculateTermFrequency_counts tokens term :
  calculateTermFrequency tokens !! term =
  if decide (term ∈ tokens) then Some (occurrences term tokens) else None.
Proof.
  unfold calculateTermFrequency. rewrite calculateTermFrequency_foldl.
  by rewrite lookup_empty.
Qed.

Variable calculateBM25Score :
  BM25SearchProvider → list Document → list string → Document → Q.

(** X22: whatever scores the host computes, what [search] returns is
    ranked: the scores do not increase along the list and are positive,
    every result is a tool of the pool with its server, and the list is no
    longer than the limit ([maxResults], or 5 when it is absent or 0), or
    than the pool when the limit is negative. *)
Theorem bm25_results_are_ranked this query availableTools :
  let results := search calculateBM25Score this query availableTools in
  StronglySorted (λ a b, score b <= score a)%Q results
  ∧ Forall (λ r, 0 < score r)%Q results
  ∧ Forall (λ r, ∃ t, t ∈ availableTools
                   ∧ result_tool r = tool t
                   ∧ result_serverUuid r = serverUuid t) results
  ∧ (List.length results ≤
     if (or_number (maxResults query) 5 <? 0)%Z
     then List.length availableTools
     else Z.to_nat (or_number (maxResults query) 5))%nat.
Proof.
  unfold search. simpl.
  destruct (String.eqb (SearchInterface.query query) "" || _).
  - split_and!.
    + destruct (slice0_is_take availableTools (or_number (maxResults query) 5))
        as [k ->].
      apply no_query_results_sorted.
    + apply Forall_fmap, Forall_true. intros t. simpl. by compute.
    + apply Forall_fmap, Forall_forall. intros t Ht%elem_of_slice0.
      by exists t.
    + rewrite length_fmap. apply slice0_length.
  - destruct (List.length (tokenize (SearchInterface.query query)) =? 0)%nat.
    { split_and!; [constructor | constructor | constructor |].
      simpl. destruct (_ <? 0)%Z; lia. }
    set (scored := omap _ (buildIndex this availableTools)).
    assert (∀ r, r ∈ scored →
              (0 < score r)%Q
              ∧ ∃ t, t ∈ availableTools ∧ result_tool r = tool t
                     ∧ result_serverUuid r = serverUuid t) as Hscored.
    { intros r (doc & Hdoc & Hr)%list_elem_of_omap.
      unfold buildIndex in Hdoc.
      apply list_elem_of_fmap in Hdoc as (t & -> & Ht).
      destruct (Qlt_le_dec 0 _) as [Hpos|]; [|discriminate].
      injection Hr as <-. simpl. split; [done|]. by exists t. }
    split_and!.
    + destruct (slice0_is_take (sort_by_score scored)
                  (or_number (maxResults query) 5)) as [k ->].
      apply StronglySorted_take, sort_by_score_sorted.
    + apply Forall_forall. intros r Hr.
      apply elem_of_slice0, elem_of_sort_by_score in Hr.
      by apply Hscored.
    + apply Forall_forall. intros r Hr.
      apply elem_of_slice0, elem_of_sort_by_score in Hr.
      by apply Hscored.
    + etrans; [apply slice0_length|].
      destruct (_ <? 0)%Z; [|done].
      rewrite (Permutation_length (sort_by_score_perm _)).
      etrans; [apply omap_length_le|].
      unfold buildIndex. by rewrite length_fmap.
Qed.

(** X23: a query that is not blank and has no word character has no
    token, and [search] returns no result for it, not the first tools of
    the pool. *)
Theorem query_without_word_characters_finds_nothing this query availableTools :
  trim (SearchInterface.query query) ≠ "" →
  string_forall isNonWordChar (SearchInterface.query query) = true →
  search calculateBM25Score this query availableTools = [].
Proof.
  intros Hquery Hchars. unfold search.
  assert (String.eqb (SearchInterface.query query) ""
          || (String.length (trim (SearchInterface.query query)) =? 0)%nat
          = false) as ->.
  { apply orb_false_iff. split.
    - apply String.eqb_neq. intros Heq. rewrite Heq in Hquery. by apply Hquery.
    - apply Nat.eqb_neq. intros Hlen. by apply length_zero_empty in Hlen. }
  assert (tokenize (SearchInterface.query query) = []) as ->; [|done].
  unfold tokenize, split_runs. apply filter_rejects_all.
  eapply Forall_impl;
    [apply split_runs_from_separators, toLowerCase_separators, Hchars|].
  simpl. by intros token [-> | ->].
Qed.

End BM25ProviderProperties.

Lemma query_without_word_characters_finds_nothing_witness :
  BM25SearchProvider.search (λ _ _ _ _, 1%Q) BM25SearchProvider.initial_provider
    (example_query "?!" None) example_pool = [].
Proof.
  apply query_without_word_characters_finds_nothing; [by vm_compute | reflexivity].
Defined.

(** ** The execute tool *)

Section ExecuteToolProperties.
Import ToolExecuteTool.
Variable ajv_compile :
  json → completion (json → bool * option (list ErrorObject)).
Variable JSON_stringify : option json → string.

(** X24: the proxy is called only for a valid call: when the trace of a
    dispatch has a call of the proxy, it is for the tool and the arguments
    of the request, the tool is none of the two built-in tools, it is the
    first tool of the pool with this name, and its schema accepts the
    arguments. *)
Theorem proxy_is_called_only_for_valid_calls
    args availableTools proxyFunction toolName toolArgs :
  CallProxy toolName toolArgs ∈
    (executeToolExecution ajv_compile JSON_stringify args availableTools
                          proxyFunction).2 →
  toolName = tool_name args
  ∧ toolArgs = arguments args
  ∧ toolName ≠ TOOL_EXECUTE_TOOL_NAME
  ∧ toolName ≠ TOOL_SEARCH_TOOL_NAME
  ∧ ∃ t,
      List.find (λ t, String.eqb (name (tool t)) toolName) availableTools
        = Some t
      ∧ (validateToolArguments ajv_compile (tool t) toolArgs).1 = true.
Proof.
  unfold executeToolExecution.
  destruct (String.eqb (tool_name args) TOOL_EXECUTE_TOOL_NAME) eqn:Hexecute;
    [by intros ?%elem_of_nil|].
  destruct (String.eqb (tool_name args) TOOL_SEARCH_TOOL_NAME) eqn:Hsearch;
    [by intros ?%elem_of_nil|].
  apply String.eqb_neq in Hexecute, Hsearch. simpl.
  destruct (List.find _ availableTools) as [t|] eqn:Hfind; simpl.
  - destruct (validateToolArguments ajv_compile (tool t) (arguments args))
      as [valid errors] eqn:Hvalid.
    destruct valid; simpl.
    + destruct (proxyFunction _ _); simpl;
        intros Hin; repeat (apply elem_of_cons in Hin as [Hin|Hin]);
        try discriminate; try (by apply elem_of_nil in Hin);
        injection Hin as -> ->; split_and!; try done;
        exists t; by rewrite Hvalid.
    + intros Hin; repeat (apply elem_of_cons in Hin as [Hin|Hin]);
        try discriminate; by apply elem_of_nil in Hin.
  - intros Hin; repeat (apply elem_of_cons in Hin as [Hin|Hin]);
      try discriminate; by apply elem_of_nil in Hin.
Qed.

(** X25: a valid call is forwarded: for a tool of the pool that is not
    built in and whose schema accepts the arguments, the dispatch looks
    the tool up, validates, calls the proxy once, and returns what the
    proxy resolves to as it is; a rejection of the proxy becomes an error
    result with its message. *)
Theorem valid_call_is_forwarded
    args availableTools proxyFunction t :
  tool_name args ≠ TOOL_EXECUTE_TOOL_NAME →
  tool_name args ≠ TOOL_SEARCH_TOOL_NAME →
  List.find (λ t, String.eqb (name (tool t)) (tool_name args)) availableTools
    = Some t →
  (validateToolArguments ajv_compile (tool t) (arguments args)).1 = true →
  executeToolExecution ajv_compile JSON_stringify args availableTools
                       proxyFunction =
  (match proxyFunction (tool_name args) (arguments args) with
   | Normal result => result
   | Throw error =>
     error_result ("Error executing tool " +:+ dquote +:+ tool_name args
                   +:+ dquote +:+ ": " +:+ error)
   end,
   [FindInPool (tool_name args);
    ValidateArguments (name (tool t)) (arguments args);
    CallProxy (tool_name args) (arguments args)]).
Proof.
  intros Hexecute%String.eqb_neq Hsearch%String.eqb_neq Hfind Hvalid.
  unfold executeToolExecution. rewrite Hexecute, Hsearch, Hfind. simpl.
  destruct (validateToolArguments ajv_compile (tool t) (arguments args))
    as [valid errors].
  simpl in Hvalid. subst valid. simpl.
  by destruct (proxyFunction _ _).
Qed.

(** X26: a dispatch that does not reach the proxy answers with an error
    result: one text block, [isError] set. *)
Theorem dispatch_without_proxy_is_an_error
    args availableTools proxyFunction :
  (∀ toolName toolArgs,
     CallProxy toolName toolArgs ∉
       (executeToolExecution ajv_compile JSON_stringify args availableTools
                             proxyFunction).2) →
  ∃ text,
    (executeToolExecution ajv_compile JSON_stringify args availableTools
                          proxyFunction).1 = error_result text.
Proof.
  unfold executeToolExecution.
  destruct (String.eqb (tool_name args) TOOL_EXECUTE_TOOL_NAME
            || String.eqb (tool_name args) TOOL_SEARCH_TOOL_NAME);
    [by eexists|]. simpl.
  destruct (List.find _ availableTools) as [t|]; simpl; [|by eexists].
  destruct (validateToolArguments ajv_compile (tool t) (arguments args))
    as [valid errors].
  destruct valid; simpl; [|by eexists].
  intros Hnever. exfalso.
  apply (Hnever (tool_name args) (arguments args)).
  destruct (proxyFunction _ _); simpl; do 2 right; left.
Qed.

(** X27: a tool whose schema AJV cannot compile is not executed: the
    dispatch answers with an error result whose text names the failure,
    [Invalid tool schema: ] followed by the message of AJV, and the proxy
    is not called. *)
Theorem invalid_schema_is_reported
    args availableTools proxyFunction t err :
  tool_name args ≠ TOOL_EXECUTE_TOOL_NAME →
  tool_name args ≠ TOOL_SEARCH_TOOL_NAME →
  List.find (λ t, String.eqb (name (tool t)) (tool_name args)) availableTools
    = Some t →
  ajv_compile (if inputSchema (tool t) is Some s then s else default_schema)
    = Throw err →
  ∃ text,
    executeToolExecution ajv_compile JSON_stringify args availableTools
                         proxyFunction =
    (error_result text,
     [FindInPool (tool_name args);
      ValidateArguments (name (tool t)) (arguments args)])
    ∧ includes text ("(root): Invalid tool schema: " +:+ err).
Proof.
  intros Hexecute%String.eqb_neq Hsearch%String.eqb_neq Hfind Hcompile.
  unfold executeToolExecution. rewrite Hexecute, Hsearch, Hfind. simpl.
  unfold validateToolArguments. rewrite Hcompile. simpl.
  eexists. split; [reflexivity|].
  unfold formatValidationErrors, includes. simpl.
  exists ("Tool " +:+ dquote +:+ name (tool t) +:+ dquote +:+
          " validation failed:" +:+ String (ascii_of_nat 10) "" +:+
          String (ascii_of_nat 10) "" +:+ "  - ").
  eexists.
  repeat rewrite append_assoc. reflexivity.
Qed.

End ExecuteToolProperties.

Lemma proxy_is_called_only_for_valid_calls_witness :
  ∃ t,
    List.find (λ t, String.eqb (name (tool t)) "web__fetch_url") example_pool
      = Some t
    ∧ (ToolExecuteTool.validateToolArguments accept_objects (tool t) (JObj [])).1
      = true.
Proof.
  refine (proj2 (proj2 (proj2 (proj2
    (proxy_is_called_only_for_valid_calls accept_objects (λ _, "")
       {| ToolExecuteTool.tool_name := "web__fetch_url";
          ToolExecuteTool.arguments := JObj [] |}
       example_pool (λ _ _, Throw "unreachable") "web__fetch_url" (JObj [])
       _))))).
  apply list_elem_of_In. vm_compute. right. right. by left.
Defined.

Lemma valid_call_is_forwarded_witness :
  ToolExecuteTool.executeToolExecution accept_objects (λ _, "")
    {| ToolExecuteTool.tool_name := "web__fetch_url";
       ToolExecuteTool.arguments := JObj [] |}
    example_pool (λ _ _, Throw "unreachable") =
  (ToolExecuteTool.error_result
     ("Error executing tool " +:+ dquote +:+ "web__fetch_url" +:+ dquote +:+
      ": unreachable"),
   [ToolExecuteTool.FindInPool "web__fetch_url";
    ToolExecuteTool.ValidateArguments "web__fetch_url" (JObj []);
    ToolExecuteTool.CallProxy "web__fetch_url" (JObj [])]).
Proof.
  apply (valid_call_is_forwarded accept_objects (λ _, "")
           {| ToolExecuteTool.tool_name := "web__fetch_url";
              ToolExecuteTool.arguments := JObj [] |}
           example_pool (λ _ _, Throw "unreachable")
           {| tool := mkTool "web__fetch_url" (Some "Fetch URL") None None [];
              serverUuid := "server-2" |});
    [discriminate | discriminate | reflexivity | reflexivity].
Defined.

Lemma dispatch_without_proxy_is_an_error_witness :
  ∃ text,
    (ToolExecuteTool.executeToolExecution accept_objects (λ _, "")
       {| ToolExecuteTool.tool_name := "web__fetch_url";
          ToolExecuteTool.arguments := JStr "not an object" |}
       example_pool (λ _ _, Throw "unreachable")).1 =
    ToolExecuteTool.error_result text.
Proof.
  apply dispatch_without_proxy_is_an_error.
  intros toolName toolArgs Hin%list_elem_of_In. vm_compute in Hin.
  destruct Hin as [Hin|[Hin|[]]]; discriminate.
Defined.

Lemma invalid_schema_is_reported_witness :
  ∃ text,
    ToolExecuteTool.executeToolExecution (λ _, Throw "strict mode") (λ _, "")
      {| ToolExecuteTool.tool_name := "web__fetch_url";
         ToolExecuteTool.arguments := JObj [] |}
      example_pool (λ _ _, Throw "unreachable") =
    (ToolExecuteTool.error_result text,
     [ToolExecuteTool.FindInPool "web__fetch_url";
      ToolExecuteTool.ValidateArguments "web__fetch_url" (JObj [])])
    ∧ ToolExecuteTool.includes text
        ("(root): Invalid tool schema: " +:+ "strict mode").
Proof.
  apply (invalid_schema_is_reported (λ _, Throw "strict mode") (λ _, "")
           {| ToolExecuteTool.tool_name := "web__fetch_url";
              ToolExecuteTool.arguments := JObj [] |}
           example_pool (λ _ _, Throw "unreachable")
           {| tool := mkTool "web__fetch_url" (Some "Fetch URL") None None [];
              serverUuid := "server-2" |} "strict mode");
    [discriminate | discriminate | reflexivity | reflexivity].
Defined.

(** ** The config API *)

Section ConfigApiProperties.
Import ToolSearchZod.
Import ToolSearchConfigImpl.

(** X28: what the store is asked to upsert has passed the schema: when the
    [upsert] procedure reaches the implementation, the store is called
    once, with a UUID, an integer [maxResults] between 1 and 20, and a
    [providerConfig] that is [null] or an object, [null] standing for a
    [providerConfig] the request does not have. *)
Theorem store_receives_validated_input repository input outcome trace :
  router_upsert (upsert repository) input = Returned (outcome, trace) →
  ∃ fields argument rest,
    input = JObj fields
    ∧ trace = CallUpsert argument :: rest
    ∧ (∀ other, CallUpsert other ∉ rest)
    ∧ is_uuid (ToolSearchConfigImpl.namespaceUuid argument) = true
    ∧ isInteger (ToolSearchConfigImpl.maxResults argument) = true
    ∧ (1 <= ToolSearchConfigImpl.maxResults argument)%Q
    ∧ (ToolSearchConfigImpl.maxResults argument <= 20)%Q
    ∧ ToolSearchConfigImpl.providerConfig argument =
        default JNull (obj_get fields "providerConfig")
    ∧ record_unknown_nullable (ToolSearchConfigImpl.providerConfig argument)
      = true.
Proof.
  unfold router_upsert, ToolSearchConfigUpsertInputSchema.
  destruct input as [| | | | |fields]; try discriminate.
  destruct (obj_get fields "namespaceUuid") as [[| | |uuid| |]|] eqn:Hu;
    try discriminate.
  destruct (obj_get fields "maxResults") as [[| |n| | |]|] eqn:Hm;
    try discriminate.
  destruct (is_uuid uuid) eqn:Huuid; [|discriminate].
  unfold number_in.
  destruct (isInteger n) eqn:Hint; [|discriminate].
  destruct (Qle_bool 1 n) eqn:Hlo; [|discriminate].
  destruct (Qle_bool n 20) eqn:Hhi; [|discriminate].
  apply Qle_bool_iff in Hlo, Hhi. simpl.
  destruct (optional record_unknown_nullable (obj_get fields "providerConfig"))
    eqn:Hconfig; [|discriminate].
  unfold upsert. simpl.
  set (argument := {| ToolSearchConfigImpl.namespaceUuid := uuid |}).
  intros Hreturned.
  assert (∃ rest, trace = CallUpsert argument :: rest
                  ∧ ∀ other, CallUpsert other ∉ rest) as (rest & -> & Hrest).
  { destruct (repository_upsert repository argument);
      injection Hreturned as <- <-; eexists; (split; [reflexivity|]);
      intros other Hin; repeat (apply elem_of_cons in Hin as [Hin|Hin]);
      try discriminate; by apply elem_of_nil in Hin. }
  exists fields, argument, rest. split_and!; try done.
  - simpl. by destruct (obj_get fields "providerConfig") as [[]|].
  - simpl. by destruct (obj_get fields "providerConfig") as [[]|].
Qed.

(** X29: when the store rejects, [get] answers and [upsert] rejects: [get]
    returns [success: false] with the message of the error and no data,
    [upsert] passes the error on; both write to the error log. *)
Theorem store_failure_in_get_and_upsert repository namespaceUuid input e e' :
  repository_findByNamespaceUuid repository namespaceUuid = Throw e →
  repository_upsert repository
    {| ToolSearchConfigImpl.namespaceUuid := ToolSearchZod.namespaceUuid input;
       ToolSearchConfigImpl.maxResults := ToolSearchZod.maxResults input;
       ToolSearchConfigImpl.providerConfig :=
         default JNull (ToolSearchZod.providerConfig input) |} = Throw e' →
  (get repository namespaceUuid).1 =
    {| success := false; data := None; message := Some e |}
  ∧ ConsoleError ∈ (get repository namespaceUuid).2
  ∧ (upsert repository input).1 = Throw e'
  ∧ ConsoleError ∈ (upsert repository input).2.
Proof.
  intros Hfind Hupsert. unfold get, upsert. rewrite Hfind.
  assert (match ToolSearchZod.providerConfig input with
          | Some JNull => JNull
          | Some config => config
          | None => JNull
          end = default JNull (ToolSearchZod.providerConfig input)) as ->
    by (by destruct (ToolSearchZod.providerConfig input) as [[]|]).
  rewrite Hupsert. simpl. split_and!; try done.
  - right. by left.
  - right. by left.
Qed.

End ConfigApiProperties.

Lemma store_receives_validated_input_witness :
  ∃ argument rest,
    ToolSearchZod.router_upsert (ToolSearchConfigImpl.upsert unreachable_store)
      request_with_k1_out_of_range
    = ToolSearchZod.Returned (Throw "connection refused",
                ToolSearchConfigImpl.CallUpsert argument :: rest)
    ∧ ToolSearchConfigImpl.providerConfig argument =
        JObj [("k1", JNum 10); ("b", JNum 0.75)].
Proof.
  destruct (store_receives_validated_input unreachable_store
              request_with_k1_out_of_range _ _ eq_refl)
    as (fields & argument & rest & Hinput & Htrace & _ & _ & _ & _ & _
        & Hconfig & _).
  exists argument, rest. split.
  - by injection Htrace as <- <-.
  - injection Hinput as <-. exact Hconfig.
Defined.

Lemma store_failure_in_get_and_upsert_witness :
  (ToolSearchConfigImpl.get unreachable_store "ns-1").1 =
    {| ToolSearchConfigImpl.success := false;
       ToolSearchConfigImpl.data := None;
       ToolSearchConfigImpl.message := Some "connection refused" |}
  ∧ (ToolSearchConfigImpl.upsert unreachable_store
       {| ToolSearchZod.namespaceUuid := "ns-1";
          ToolSearchZod.maxResults := 5;
          ToolSearchZod.providerConfig := None |}).1
    = Throw "connection refused".
Proof.
  destruct (store_failure_in_get_and_upsert unreachable_store "ns-1"
              {| ToolSearchZod.namespaceUuid := "ns-1";
                 ToolSearchZod.maxResults := 5;
                 ToolSearchZod.providerConfig := None |}
              "connection refused" "connection refused" eq_refl eq_refl)
    as (Hget & _ & Hupsert & _).
  by split.
Defined.

(** ** The per-tool overrides of a namespace *)

Section OverridesProperties.
Import DeferLoading.
Import NamespaceMappingsRepository.
Variable sanitizeName : string → string.




End OverridesProperties.
